(** * Note graph and semantic linking engine: a shallow embedding

    The development follows [convex/canvas.ts] (node and edge repository,
    content parser, link resolver), the voice-note pipeline [process] and the
    editor-side helpers ([extractWikiLinks], [handleUpdate]).

    Conventions.
    - A JavaScript string is a sequence of UTF-16 code units.  The model
      covers the code units below 256 and writes them as [ascii]; on that
      range [String.prototype.toLowerCase], [trim] and the regular-expression
      class [\s] are the functions given below.
    - A Convex table is a finite map from document ids to documents; ids are
      allocated from a counter and never reused.
    - A handler is a state-passing function that either returns or throws.
      [ctx.db.insert] throws on a document that lacks a field required by
      the table's validator in [convex/schema.ts]; [ctx.db.patch] and
      [ctx.db.delete] throw on an id that has no document; a mutation whose
      handler throws leaves the store as it found it.
    - Timestamps come from a clock supplied by the environment; a mutation
      reads it once.  Coordinates, scores and durations are rationals. *)

From Stdlib Require Import Ascii QArith Qround.
From stdpp Require Import base numbers option list strings gmap fin_maps pretty
  sorting.

Set Default Proof Using "Type".
Local Open Scope stdpp_scope.
Local Open Scope nat_scope.

(* ===================================================================== *)
(** * Text: code units, case, whitespace                                 *)
(* ===================================================================== *)

Module Text.

Definition code (c : ascii) : nat := nat_of_ascii c.

(** [WhiteSpace] and [LineTerminator] code units below 256: TAB, LF, VT,
    FF, CR, SPACE and NBSP.  These are what [trim] strips and what [\s]
    matches. *)
Definition is_space (c : ascii) : bool :=
  let n := code c in
  (9 <=? n) && (n <=? 13) || (n =? 32) || (n =? 160).

(** Upper-case letters below 256: A-Z, and the Latin-1 block
    U+00C0..U+00DE without the multiplication sign U+00D7. *)
Definition is_upper (c : ascii) : bool :=
  let n := code c in
  (65 <=? n) && (n <=? 90)
  || (192 <=? n) && (n <=? 222) && negb (n =? 215).

Definition lower_char (c : ascii) : ascii :=
  if is_upper c then ascii_of_nat (code c + 32) else c.

(** [s.toLowerCase()] *)
Fixpoint toLowerCase (s : string) : string :=
  match s with
  | EmptyString => EmptyString
  | String c r => String (lower_char c) (toLowerCase r)
  end.

Definition is_empty (s : string) : bool :=
  match s with EmptyString => true | String _ _ => false end.

Fixpoint drop_while (p : ascii -> bool) (s : string) : string :=
  match s with
  | EmptyString => EmptyString
  | String c r => if p c then drop_while p r else s
  end.

Definition trimStart (s : string) : string := drop_while is_space s.

Fixpoint trimEnd (s : string) : string :=
  match s with
  | EmptyString => EmptyString
  | String c r =>
      let r' := trimEnd r in
      if is_space c && is_empty r' then EmptyString else String c r'
  end.

(** [s.trim()] *)
Definition trim (s : string) : string := trimEnd (trimStart s).

(** [s.split(LF)[0]]: the text before the first line feed. *)
Fixpoint first_line (s : string) : string :=
  match s with
  | EmptyString => EmptyString
  | String c r =>
      if Ascii.eqb c "010" then EmptyString else String c (first_line r)
  end.

(** Longest prefix made of code units different from [stop], and what
    follows it.  This is how a greedy negated class [[^x]*] consumes. *)
Fixpoint span_until (stop : ascii) (s : string) : string * string :=
  match s with
  | EmptyString => (EmptyString, EmptyString)
  | String c r =>
      if Ascii.eqb c stop then (EmptyString, s)
      else let '(x, r') := span_until stop r in (String c x, r')
  end.

Fixpoint strip_prefix (p s : string) : option string :=
  match p, s with
  | EmptyString, _ => Some s
  | String a p', String b s' =>
      if Ascii.eqb a b then strip_prefix p' s' else None
  | String _ _, EmptyString => None
  end.

(** [x || dflt] on strings: the empty string is falsy. *)
Definition or_default (x dflt : string) : string :=
  if is_empty x then dflt else x.

End Text.

(* ===================================================================== *)
(** * Regular expressions used by the parser                             *)
(* ===================================================================== *)

Module Regex.
Import Text.

(** A pattern tried at the head of the remaining input: on success the
    first capture group and the input after the match. *)
Definition matcher := string -> option (string * string).

(** [/\[\[([^\]]+)\]\]/]: two opening brackets, a non-empty greedy run of
    code units other than a closing bracket, two closing brackets.  The run
    is maximal, so backtracking to a shorter run would leave a code unit of
    the class where a closing bracket is required: only the maximal run can
    match. *)
Definition rawRegex : matcher := fun s =>
  match s with
  | String "[" (String "[" r) =>
      match span_until "]" r with
      | (String c x, String "]" (String "]" rest)) => Some (String c x, rest)
      | _ => None
      end
  | _ => None
  end.

(** The double-quote code unit, U+0022. *)
Definition dquote : ascii := "034".

(** The attribute pattern of the editor's markup: the literal text
    [data-title=], a double quote, a non-empty greedy run of code units
    other than a double quote, and a double quote. *)
Definition htmlRegex : matcher := fun s =>
  match strip_prefix ("data-title=" +:+ String dquote EmptyString) s with
  | Some r =>
      match span_until dquote r with
      | (String c x, String "034" rest) => Some (String c x, rest)
      | _ => None
      end
  | None => None
  end.

(** [/<[^>]*>/]: the class may be empty and matches line feeds too. *)
Definition tagRegex : matcher := fun s =>
  match s with
  | String "<" r =>
      match span_until ">" r with
      | (x, String ">" rest) => Some (x, rest)
      | _ => None
      end
  | _ => None
  end.

(** One call of [re.exec(s)] for a global pattern whose [lastIndex] points
    at the head of [s]: the leftmost position at which the pattern matches. *)
Fixpoint exec (re : matcher) (s : string) : option (string * string) :=
  match re s with
  | Some m => Some m
  | None =>
      match s with
      | EmptyString => None
      | String _ r => exec re r
      end
  end.

(** The loop [while ((match = re.exec(content)) !== null) ...]: the list of
    first capture groups, in order.  Every match consumes at least one code
    unit, so [length s] iterations are enough. *)
Fixpoint exec_loop (fuel : nat) (re : matcher) (s : string) : list string :=
  match fuel with
  | 0 => []
  | S fuel' =>
      match exec re s with
      | Some (g, rest) => g :: exec_loop fuel' re rest
      | None => []
      end
  end.

Definition captures (re : matcher) (s : string) : list string :=
  exec_loop (S (String.length s)) re s.

(** [s.replace(re, empty)] for a global pattern. *)
Fixpoint remove_loop (fuel : nat) (re : matcher) (s : string) : string :=
  match fuel with
  | 0 => s
  | S fuel' =>
      match re s with
      | Some (_, rest) => remove_loop fuel' re rest
      | None =>
          match s with
          | EmptyString => EmptyString
          | String c r => String c (remove_loop fuel' re r)
          end
      end
  end.

Definition remove_all (re : matcher) (s : string) : string :=
  remove_loop (S (String.length s)) re s.

(** [s.replace(/^#\s*/, empty)]: anchored at the start, not global. *)
Definition strip_heading (s : string) : string :=
  match s with
  | String "#" r => drop_while is_space r
  | _ => s
  end.

End Regex.

(* ===================================================================== *)
(** * Content parser                                                     *)
(* ===================================================================== *)

Module Parser.
Import Text Regex.

(** [extractNoteTitle] of [convex/canvas.ts]. *)
Definition extractNoteTitle (content : string) : string :=
  let firstLine := first_line content in
  let cleanLine := remove_all tagRegex firstLine in
  or_default (trim (strip_heading cleanLine)) "Untitled".

(** [links.includes(title)] *)
Definition includes (links : list string) (title : string) : bool :=
  bool_decide (title ∈ links).

(** Body of the second loop: push unless already present. *)
Definition push_new (links : list string) (title : string) : list string :=
  if includes links title then links else links ++ [title].

(** [extractWikiLinksFromContent] of [convex/canvas.ts]: the first loop
    pushes every delimited capture, the second pushes an attribute capture
    only when the list does not hold it yet.  Both lower-case. *)
Definition extractWikiLinksFromContent (content : string) : list string :=
  let links := map toLowerCase (captures rawRegex content) in
  foldl (fun links m => push_new links (toLowerCase m))
        links (captures htmlRegex content).

(** [extractWikiLinks] of the editor ([lib/tiptap/wiki-link]): the same two
    loops without lower-casing. *)
Definition extractWikiLinks (content : string) : list string :=
  let links := captures rawRegex content in
  foldl push_new links (captures htmlRegex content).

End Parser.


(* ===================================================================== *)
(** * Effects: handlers that return or throw                             *)
(* ===================================================================== *)

Module Eff.

(** What a [throw] carries: an [Error] object with its message, or any
    other value ([error instanceof Error] is false for it). *)
Inductive thrown :=
| JsError (message : string)
| JsValue.

Inductive outcome (A : Type) :=
| Ok (a : A)
| Throw (e : thrown).
Global Arguments Ok {A} a.
Global Arguments Throw {A} e.

(** A computation over a state [S]. *)
Definition M (S A : Type) : Type := S -> outcome A * S.

Definition ret {S A} (a : A) : M S A := fun s => (Ok a, s).

Definition bind {S A B} (m : M S A) (k : A -> M S B) : M S B := fun s =>
  match m s with
  | (Ok a, s') => k a s'
  | (Throw e, s') => (Throw e, s')
  end.

Definition throw {S A} (e : thrown) : M S A := fun s => (Throw e, s).

(** [try { m } catch (error) { h error }] *)
Definition try_catch {S A} (m : M S A) (h : thrown -> M S A) : M S A :=
  fun s =>
    match m s with
    | (Ok a, s') => (Ok a, s')
    | (Throw e, s') => h e s'
    end.

(** Reading the state. *)
Definition gets {S A} (f : S -> A) : M S A := fun s => (Ok (f s), s).

(** [for (const x of l) { await body(x) }] *)
Fixpoint for_each {S A} (l : list A) (body : A -> M S unit) : M S unit :=
  match l with
  | [] => ret tt
  | a :: r => bind (body a) (fun _ => for_each r body)
  end.

(** A Convex mutation is a transaction: when the handler throws, none of
    its writes is kept. *)
Definition transaction {S A} (h : M S A) : M S A := fun s =>
  match h s with
  | (Ok a, s') => (Ok a, s')
  | (Throw e, _) => (Throw e, s)
  end.

End Eff.

Import Eff.

Notation "x <- m ;; k" := (bind m (fun x => k))
  (at level 100, m at next level, right associativity,
   format "'[v' x  <-  m  ;;  '/' k ']'").
Notation "m ;;; k" := (bind m (fun _ => k))
  (at level 100, right associativity).

(* ===================================================================== *)
(** * Data model ([convex/schema.ts])                                    *)
(* ===================================================================== *)

Module Schema.

Inductive node_type := TypeText | TypeChatReference | TypeNote.

Inductive source_type :=
| SourceManual | SourceVoice | SourceChat | SourceAiExtracted
| SourceWeb | SourceYoutube | SourceReadwise.

Inductive voice_status :=
| Recording | Uploaded | Transcribing | Processing | Completed | Error.

Global Instance node_type_eq_dec : EqDecision node_type.
Proof. solve_decision. Defined.
Global Instance voice_status_eq_dec : EqDecision voice_status.
Proof. solve_decision. Defined.

(** Document ids are allocation indices. *)
Abbreviation node_id := nat (only parsing).
Abbreviation edge_id := nat (only parsing).
Abbreviation voice_id := nat (only parsing).

(** A stored canvas node.  [userId] is required by the table's validator
    ([userId: v.string()]), as are [type], [content], the position, the
    size and the two timestamps. *)
Record canvasNode := {
  node_userId : string;
  node_type_of : node_type;
  node_content : string;
  node_x : Q;
  node_y : Q;
  node_width : Q;
  node_height : Q;
  node_messageId : option nat;
  node_conversationId : option nat;
  node_sourceType : option source_type;
  node_sourceId : option voice_id;
  node_sourceUrl : option string;
  node_parentNodeId : option node_id;
  node_outgoingLinks : option (list string);
  node_embedding : option (list Q);
  node_createdAt : Z;
  node_updatedAt : Z
}.

Record canvasEdge := {
  edge_source : node_id;
  edge_target : node_id;
  edge_label : option string;
  edge_createdAt : Z
}.

Record voiceNote := {
  voice_userId : string;
  voice_fileId : nat;
  voice_duration : Q;
  voice_transcription : option string;
  voice_status_of : voice_status;
  voice_errorMessage : option string;
  voice_createdAt : Z;
  voice_updatedAt : Z
}.

(** The three tables and the id allocator. *)
Record db := {
  canvasNodes : gmap node_id canvasNode;
  canvasEdges : gmap edge_id canvasEdge;
  voiceNotes : gmap voice_id voiceNote;
  next_id : nat
}.

Definition empty_db : db :=
  {| canvasNodes := ∅; canvasEdges := ∅; voiceNotes := ∅; next_id := 0 |}.

End Schema.

Import Schema.

(* ===================================================================== *)
(** * The document store ([ctx.db])                                      *)
(* ===================================================================== *)

(** [insert] checks the written document against the table's validator and
    allocates a fresh id; [patch] and [delete] throw when no document has the
    id (the store's contract, the spec's NotFoundError). *)
Module Db.

Definition not_found (op : string) : thrown :=
  JsError (op +:+ " on nonexistent document ID").

Definition set_nodes (f : gmap nat canvasNode -> gmap nat canvasNode)
    (d : db) : db :=
  {| canvasNodes := f (canvasNodes d); canvasEdges := canvasEdges d;
     voiceNotes := voiceNotes d; next_id := next_id d |}.

Definition set_edges (f : gmap nat canvasEdge -> gmap nat canvasEdge)
    (d : db) : db :=
  {| canvasNodes := canvasNodes d; canvasEdges := f (canvasEdges d);
     voiceNotes := voiceNotes d; next_id := next_id d |}.

Definition set_voiceNotes (f : gmap nat voiceNote -> gmap nat voiceNote)
    (d : db) : db :=
  {| canvasNodes := canvasNodes d; canvasEdges := canvasEdges d;
     voiceNotes := f (voiceNotes d); next_id := next_id d |}.

Definition bump (d : db) : db :=
  {| canvasNodes := canvasNodes d; canvasEdges := canvasEdges d;
     voiceNotes := voiceNotes d; next_id := S (next_id d) |}.

(** What the store throws when a written document does not match the
    validator that [convex/schema.ts] declares for its table.  It is an
    [Error]; the wording of its message is the runtime's and stands here
    for it. *)
Definition schema_violation (table field : string) : thrown :=
  JsError ("Failed to insert or update a document in table " +:+ table
           +:+ " because it does not match the schema: "
           +:+ "Object is missing the required field " +:+ field).

(** The object a handler hands to [ctx.db.insert("canvasNodes", ...)].
    The handlers of [convex/canvas.ts] write every required field of the
    table but [userId]; so the object is its [userId] key, present or
    not, and the remaining fields, given as the document they make with
    a [userId]. *)
Record nodeDocument := {
  doc_userId : option string;
  doc_fields : string -> canvasNode
}.

(** [ctx.db.insert("canvasNodes", doc)]: a document without the required
    [userId] is rejected and nothing is written. *)
Definition insert_node (doc : nodeDocument) : M db nat := fun d =>
  match doc_userId doc with
  | Some userId =>
      (Ok (next_id d),
       bump (set_nodes (insert (next_id d) (doc_fields doc userId)) d))
  | None => (Throw (schema_violation "canvasNodes" "userId"), d)
  end.

Definition insert_edge (e : canvasEdge) : M db nat := fun d =>
  (Ok (next_id d), bump (set_edges (insert (next_id d) e) d)).

Definition insert_voiceNote (v : voiceNote) : M db nat := fun d =>
  (Ok (next_id d), bump (set_voiceNotes (insert (next_id d) v) d)).

Definition get_node (id : nat) : M db (option canvasNode) :=
  gets (fun d => canvasNodes d !! id).

Definition get_voiceNote (id : nat) : M db (option voiceNote) :=
  gets (fun d => voiceNotes d !! id).

Definition patch_node (id : nat) (f : canvasNode -> canvasNode)
    : M db unit := fun d =>
  match canvasNodes d !! id with
  | Some n => (Ok tt, set_nodes (insert id (f n)) d)
  | None => (Throw (not_found "Update"), d)
  end.

Definition patch_voiceNote (id : nat) (f : voiceNote -> voiceNote)
    : M db unit := fun d =>
  match voiceNotes d !! id with
  | Some v => (Ok tt, set_voiceNotes (insert id (f v)) d)
  | None => (Throw (not_found "Update"), d)
  end.

Definition delete_node (id : nat) : M db unit := fun d =>
  match canvasNodes d !! id with
  | Some _ => (Ok tt, set_nodes (delete id) d)
  | None => (Throw (not_found "Delete"), d)
  end.

Definition delete_edge (id : nat) : M db unit := fun d =>
  match canvasEdges d !! id with
  | Some _ => (Ok tt, set_edges (delete id) d)
  | None => (Throw (not_found "Delete"), d)
  end.

(** [ctx.db.query(table).collect()]: every document with its [_id].  The
    order of the result is the map's own; nothing below depends on it. *)
Definition collect_nodes (d : db) : list (nat * canvasNode) :=
  map_to_list (canvasNodes d).

Definition collect_edges (d : db) : list (nat * canvasEdge) :=
  map_to_list (canvasEdges d).

(** [withIndex("by_source", q => q.eq("source", id)).collect()] *)
Definition by_source (id : nat) (d : db) : list (nat * canvasEdge) :=
  filter (fun p => edge_source p.2 = id) (collect_edges d).

(** [withIndex("by_target", q => q.eq("target", id)).collect()] *)
Definition by_target (id : nat) (d : db) : list (nat * canvasEdge) :=
  filter (fun p => edge_target p.2 = id) (collect_edges d).

End Db.

Import Db.

(* ===================================================================== *)
(** * Node and edge repository, link resolver ([convex/canvas.ts])       *)
(* ===================================================================== *)

Module Canvas.
Import Text Regex Parser.

Record createNodeArgs := {
  cn_type : node_type;
  cn_content : string;
  cn_x : Q;
  cn_y : Q;
  cn_width : option Q;
  cn_height : option Q;
  cn_messageId : option nat;
  cn_conversationId : option nat;
  cn_sourceType : option source_type;
  cn_sourceId : option nat;
  cn_sourceUrl : option string;
  cn_parentNodeId : option nat;
  cn_outgoingLinks : option (list string)
}.

(** The fields of the object literal in [createNode]; [now] is the
    handler's [Date.now()]. *)
Definition created_fields (now : Z) (args : createNodeArgs)
    (userId : string) : canvasNode :=
  {| node_userId := userId;
     node_type_of := cn_type args;
     node_content := cn_content args;
     node_x := cn_x args;
     node_y := cn_y args;
     node_width := default (300 # 1)%Q (cn_width args);
     node_height := default (150 # 1)%Q (cn_height args);
     node_messageId := cn_messageId args;
     node_conversationId := cn_conversationId args;
     node_sourceType := Some (default SourceManual (cn_sourceType args));
     node_sourceId := cn_sourceId args;
     node_sourceUrl := cn_sourceUrl args;
     node_parentNodeId := cn_parentNodeId args;
     node_outgoingLinks := cn_outgoingLinks args;
     node_embedding := None;
     node_createdAt := now;
     node_updatedAt := now |}.

(** [createNode]: the object literal has no [userId] key. *)
Definition createNode (now : Z) (args : createNodeArgs) : M db nat :=
  transaction (insert_node
    {| doc_userId := None; doc_fields := created_fields now args |}).

Record updateNodeArgs := {
  un_id : nat;
  un_content : option string;
  un_x : option Q;
  un_y : option Q;
  un_width : option Q;
  un_height : option Q;
  un_outgoingLinks : option (list string)
}.

(** The object [{ ...filteredUpdates, updatedAt: Date.now() }] applied by
    [ctx.db.patch]: a field absent from the arguments keeps its value. *)
Definition apply_updates (now : Z) (args : updateNodeArgs)
    (n : canvasNode) : canvasNode :=
  {| node_userId := node_userId n;
     node_type_of := node_type_of n;
     node_content := default (node_content n) (un_content args);
     node_x := default (node_x n) (un_x args);
     node_y := default (node_y n) (un_y args);
     node_width := default (node_width n) (un_width args);
     node_height := default (node_height n) (un_height args);
     node_messageId := node_messageId n;
     node_conversationId := node_conversationId n;
     node_sourceType := node_sourceType n;
     node_sourceId := node_sourceId n;
     node_sourceUrl := node_sourceUrl n;
     node_parentNodeId := node_parentNodeId n;
     node_outgoingLinks :=
       match un_outgoingLinks args with
       | Some l => Some l
       | None => node_outgoingLinks n
       end;
     node_embedding := node_embedding n;
     node_createdAt := node_createdAt n;
     node_updatedAt := now |}.

(** [updateNode] *)
Definition updateNode (now : Z) (args : updateNodeArgs) : M db unit :=
  transaction (patch_node (un_id args) (apply_updates now args)).

Definition set_embedding (v : list Q) (n : canvasNode) : canvasNode :=
  {| node_userId := node_userId n;
     node_type_of := node_type_of n;
     node_content := node_content n;
     node_x := node_x n;
     node_y := node_y n;
     node_width := node_width n;
     node_height := node_height n;
     node_messageId := node_messageId n;
     node_conversationId := node_conversationId n;
     node_sourceType := node_sourceType n;
     node_sourceId := node_sourceId n;
     node_sourceUrl := node_sourceUrl n;
     node_parentNodeId := node_parentNodeId n;
     node_outgoingLinks := node_outgoingLinks n;
     node_embedding := Some v;
     node_createdAt := node_createdAt n;
     node_updatedAt := node_updatedAt n |}.

(** [updateNodeEmbedding] *)
Definition updateNodeEmbedding (id : nat) (v : list Q) : M db unit :=
  transaction (patch_node id (set_embedding v)).

(** The handler of [deleteNode]: both index queries are taken first, then
    the loop deletes every listed edge, then the node. *)
Definition deleteNode_handler (id : nat) : M db unit :=
  sourceEdges <- gets (by_source id) ;;
  targetEdges <- gets (by_target id) ;;
  (for_each (sourceEdges ++ targetEdges) (fun edge => delete_edge edge.1) ;;;
   delete_node id).

Definition deleteNode (id : nat) : M db unit :=
  transaction (deleteNode_handler id).

(** [createEdge] *)
Definition createEdge (now : Z) (source target : nat)
    (label : option string) : M db nat :=
  transaction (insert_edge
    {| edge_source := source; edge_target := target;
       edge_label := label; edge_createdAt := now |}).

(** [deleteEdge] *)
Definition deleteEdge (id : nat) : M db unit :=
  transaction (delete_edge id).

(** [listNodes] *)
Definition listNodes (d : db) : list (nat * canvasNode) := collect_nodes d.

(** [listEdges] *)
Definition listEdges (d : db) : list (nat * canvasEdge) := collect_edges d.

Definition is_note (p : nat * canvasNode) : bool :=
  bool_decide (node_type_of p.2 = TypeNote).

(** The filter predicate of [getWikiLinkBacklinks]. *)
Definition links_to (targetTitle : string) (note : canvasNode) : bool :=
  match node_outgoingLinks note with
  | Some links =>
      existsb (fun link => String.eqb (toLowerCase link) targetTitle) links
  | None => false
  end
  || includes (extractWikiLinksFromContent (node_content note)) targetTitle.

(** A returned backlink: the document with its id, and the added
    [title] field. *)
Record backlink := {
  bl_id : nat;
  bl_note : canvasNode;
  bl_title : string
}.

(** [getWikiLinkBacklinks] *)
Definition getWikiLinkBacklinks (noteTitle : string) (d : db)
    : list backlink :=
  if is_empty noteTitle then []
  else
    let nodes := collect_nodes d in
    let notes := filter (fun n => is_note n = true) nodes in
    let targetTitle := toLowerCase noteTitle in
    let backlinks :=
      filter (fun n => links_to targetTitle n.2 = true) notes in
    map (fun n => {| bl_id := n.1; bl_note := n.2;
                     bl_title := extractNoteTitle (node_content n.2) |})
        backlinks.

End Canvas.

(* ===================================================================== *)
(** * The note editor ([components/notes/NoteEditor.tsx])                *)
(* ===================================================================== *)

Module NoteEditor.
Import Parser Canvas.

(** [handleUpdate]: the editor extracts the links itself and sends them
    along with the content. *)
Definition handleUpdate (now : Z) (noteId : nat) (content : string)
    : M db unit :=
  let outgoingLinks := extractWikiLinks content in
  updateNode now
    {| un_id := noteId; un_content := Some content;
       un_x := None; un_y := None; un_width := None; un_height := None;
       un_outgoingLinks := Some outgoingLinks |}.

End NoteEditor.

(* ===================================================================== *)
(** * Voice notes and the ingestion pipeline ([convex/voiceNotes.ts])    *)
(* ===================================================================== *)

Module VoiceNotes.
Import Text Canvas.

(** One extracted concept, as the extraction route returns it;
    [suggestedLinks] may be missing. *)
Record concept := {
  concept_title : string;
  concept_content : string;
  concept_suggestedLinks : option (list string);
  concept_tags : list string
}.

(** An element of [related.nodes]. *)
Record relatedNode := {
  related_id : nat;
  related_score : Q
}.

(** The transcription endpoint's reply: [response.ok] with the [text] of
    its JSON body, or a failure status with the body text. *)
Inductive whisper_response :=
| WhisperOk (text : string)
| WhisperNotOk (errorText : string).

Inductive extract_response :=
| ExtractOk (concepts : list concept)
| ExtractNotOk (error : string).

(** Everything outside the engine.  A call that rejects (network failure,
    unparsable body) is a [Throw]. *)
Record env := {
  identity : option string;
  clock : nat -> Z;
  storage_getUrl : nat -> option string;
  fetch_audio : string -> outcome string;
  transcribe : string -> outcome whisper_response;
  extract_concepts : string -> list string -> outcome extract_response;
  random_x : Q;
  random_y : Q;
  embed : string -> outcome (list Q);
  nearest : gmap nat canvasNode -> string
            -> outcome (list (option relatedNode))
}.

(** State of an action: the store, and how many times the deployment's
    clock has been read. *)
Record world := {
  store : db;
  ticks : nat
}.

Record updateStatusArgs := {
  us_id : nat;
  us_status : voice_status;
  us_transcription : option string;
  us_errorMessage : option string
}.

Record process_result := {
  success : bool;
  conceptCount : nat
}.

Section WithEnv.
Variable E : env.

(** [getAuthenticatedUser] *)
Definition getAuthenticatedUser : M db string :=
  match identity E with
  | Some subject => ret subject
  | None => throw (JsError "Unauthorized")
  end.

Definition apply_status (now : Z) (args : updateStatusArgs)
    (v : voiceNote) : voiceNote :=
  {| voice_userId := voice_userId v;
     voice_fileId := voice_fileId v;
     voice_duration := voice_duration v;
     voice_transcription :=
       match us_transcription args with
       | Some t => Some t
       | None => voice_transcription v
       end;
     voice_status_of := us_status args;
     voice_errorMessage :=
       match us_errorMessage args with
       | Some m => Some m
       | None => voice_errorMessage v
       end;
     voice_createdAt := voice_createdAt v;
     voice_updatedAt := now |}.

(** [updateStatus] *)
Definition updateStatus (now : Z) (args : updateStatusArgs) : M db unit :=
  transaction (
    subject <- getAuthenticatedUser ;;
    voiceNote <- get_voiceNote (us_id args) ;;
    match voiceNote with
    | Some v =>
        if bool_decide (voice_userId v = subject)
        then patch_voiceNote (us_id args) (apply_status now args)
        else throw (JsError "Not found")
    | None => throw (JsError "Not found")
    end).

(** [get] *)
Definition get (id : nat) : M db (option voiceNote) :=
  subject <- getAuthenticatedUser ;;
  voiceNote <- get_voiceNote id ;;
  match voiceNote with
  | Some v =>
      if bool_decide (voice_userId v = subject) then ret (Some v)
      else ret None
  | None => ret None
  end.

(** [getAudioUrl] *)
Definition getAudioUrl (fileId : nat) : M db (option string) :=
  getAuthenticatedUser ;;; ret (storage_getUrl E fileId).

(** ** Running handlers from an action *)

Definition run {A} (h : M db A) : M world A := fun w =>
  let '(r, d) := h (store w) in (r, {| store := d; ticks := ticks w |}).

Definition read_clock : M world Z := fun w =>
  (Ok (clock E (ticks w)), {| store := store w; ticks := S (ticks w) |}).

(** [ctx.runQuery] *)
Definition runQuery {A} (q : M db A) : M world A := run q.

(** [ctx.runMutation]; the handler sees one [Date.now()]. *)
Definition runMutation {A} (h : Z -> M db A) : M world A :=
  now <- read_clock ;; run (h now).

(** An awaited external call. *)
Definition await {A} (r : outcome A) : M world A := fun w => (r, w).

(** ** Actions of [convex/embeddings.ts] *)

(** Modelled from the spec: [embedCanvasNode] lives in
    [convex/embeddings.ts], which is not among the sources.  It requests
    an embedding vector for the text from the embedding collaborator and
    persists it on the node with [updateNodeEmbedding]. *)
Definition embedCanvasNode (nodeId : nat) (content : string)
    : M world unit :=
  v <- await (embed E content) ;;
  runMutation (fun _ => updateNodeEmbedding nodeId v).

(** Modelled from the spec: [findRelated] lives in
    [convex/embeddings.ts], which is not among the sources.  It queries
    the nearest-neighbour collaborator over the nodes currently stored
    and returns the top [limit] entries of its ranking. *)
Definition findRelated (query : string) (limit : nat)
    : M world (list (option relatedNode)) :=
  nodes <- gets (fun w => canvasNodes (store w)) ;;
  ranked <- await (nearest E nodes query) ;;
  ret (take limit ranked).

(** ** The pipeline *)

Definition line_feed : string := String "010" EmptyString.

(** The content of a concept's note: heading, body and, when there are
    suggested links, a last line of delimited references. *)
Definition concept_note_content (c : concept) : string :=
  let wikiLinks :=
    (fun ls => String.concat " " (map (fun l => "[[" +:+ l +:+ "]]") ls))
      <$> concept_suggestedLinks c in
  "# " +:+ concept_title c +:+ line_feed +:+ line_feed
       +:+ concept_content c
       +:+ match wikiLinks with
           | Some w =>
               if is_empty w then EmptyString
               else line_feed +:+ line_feed +:+ w
           | None => EmptyString
           end.

(** [Math.round(score * 100)] followed by the percent sign. *)
Definition score_label (r : relatedNode) : string :=
  pretty (Qfloor (related_score r * (100 # 1) + (1 # 2))%Q) +:+ "%".

(** The guard of the linking loop. *)
Definition linkable (nodeId : nat) (createdNodeIds : list nat)
    (relatedNode : option relatedNode) : bool :=
  match relatedNode with
  | Some r =>
      negb (bool_decide (related_id r = nodeId))
      && negb (bool_decide (related_id r ∈ createdNodeIds))
  | None => false
  end.

(** The loop over [related.nodes]. *)
Definition link_related (nodeId : nat) (createdNodeIds : list nat)
    (related : list (option relatedNode)) : M world unit :=
  for_each related (fun relatedNode =>
    match relatedNode with
    | Some r =>
        if linkable nodeId createdNodeIds relatedNode
        then runMutation (fun now =>
               createEdge now nodeId (related_id r)
                          (Some (score_label r))) ;;; ret tt
        else ret tt
    | None => ret tt
    end).

(** Similarity linking of one node: the neighbour query and the loop. *)
Definition link_by_similarity (limit : nat) (nodeId : nat)
    (createdNodeIds : list nat) (query : string) : M world unit :=
  related <- findRelated query limit ;;
  link_related nodeId createdNodeIds related.

(** Creation and embedding of one concept's note; returns the id. *)
Definition create_concept_node (voiceNoteId : nat) (baseX baseY : Q)
    (xOffset : Q) (c : concept) : M world nat :=
  nodeId <- runMutation (fun now => createNode now
    {| cn_type := TypeNote;
       cn_content := concept_note_content c;
       cn_x := (baseX + xOffset)%Q;
       cn_y := baseY;
       cn_width := None; cn_height := None;
       cn_messageId := None; cn_conversationId := None;
       cn_sourceType := Some SourceVoice;
       cn_sourceId := Some voiceNoteId;
       cn_sourceUrl := None; cn_parentNodeId := None;
       cn_outgoingLinks := None |}) ;;
  ret nodeId.

(** The rest of an iteration, once the concept's note has the id
    [nodeId]: the id is pushed, the note is embedded and linked, the
    offset advances. *)
Definition link_concept (createdNodeIds : list nat) (xOffset : Q)
    (nodeId : nat) (c : concept) : M world (list nat * Q) :=
  let createdNodeIds := createdNodeIds ++ [nodeId] in
  (embedCanvasNode nodeId (concept_content c) ;;;
   link_by_similarity 3 nodeId createdNodeIds (concept_content c) ;;;
   ret (createdNodeIds, (xOffset + (350 # 1))%Q)).

(** One iteration of [for (const concept of concepts)]; the loop state
    is [createdNodeIds] and [xOffset]. *)
Definition process_concept (voiceNoteId : nat) (baseX baseY : Q)
    (st : list nat * Q) (c : concept) : M world (list nat * Q) :=
  let '(createdNodeIds, xOffset) := st in
  nodeId <- create_concept_node voiceNoteId baseX baseY xOffset c ;;
  link_concept createdNodeIds xOffset nodeId c.

Fixpoint process_concepts (voiceNoteId : nat) (baseX baseY : Q)
    (concepts : list concept) (st : list nat * Q)
    : M world (list nat * Q) :=
  match concepts with
  | [] => ret st
  | c :: rest =>
      st' <- process_concept voiceNoteId baseX baseY st c ;;
      process_concepts voiceNoteId baseX baseY rest st'
  end.

(** First part of the [try] block: audio URL, audio fetch, transcription
    call. *)
Definition transcription_stage (v : voiceNote) : M world string :=
  audioUrl <- runQuery (getAudioUrl (voice_fileId v)) ;;
  match audioUrl with
  | Some url =>
      if is_empty url then throw (JsError "Audio file not found")
      else
        audioBlob <- await (fetch_audio E url) ;;
        transcribeResponse <- await (transcribe E audioBlob) ;;
        match transcribeResponse with
        | WhisperNotOk errorText =>
            throw (JsError ("Transcription failed: " +:+ errorText))
        | WhisperOk text => ret text
        end
  | None => throw (JsError "Audio file not found")
  end.

(** Second part: the existing notes as context, and the extraction
    call. *)
Definition extraction_stage (transcription : string)
    : M world (list concept) :=
  existingNodes <- runQuery (gets listNodes) ;;
  extractResponse <-
    await (extract_concepts E transcription
             (map (fun n => node_content n.2) existingNodes)) ;;
  match extractResponse with
  | ExtractNotOk error =>
      throw (JsError ("Concept extraction failed: " +:+ error))
  | ExtractOk concepts => ret concepts
  end.

Definition status_args (id : nat) (s : voice_status)
    (t m : option string) : updateStatusArgs :=
  {| us_id := id; us_status := s;
     us_transcription := t; us_errorMessage := m |}.

(** The [try] block. *)
Definition process_try (voiceNoteId : nat) (v : voiceNote)
    : M world process_result :=
  transcription <- transcription_stage v ;;
  (runMutation (fun now => updateStatus now
     (status_args voiceNoteId Processing (Some transcription) None)) ;;;
   concepts <- extraction_stage transcription ;;
   let baseX := ((100 # 1) + random_x E * (200 # 1))%Q in
   let baseY := ((100 # 1) + random_y E * (200 # 1))%Q in
   (process_concepts voiceNoteId baseX baseY concepts ([], 0%Q) ;;;
    runMutation (fun now => updateStatus now
      (status_args voiceNoteId Completed None None)) ;;;
    ret {| success := true; conceptCount := length concepts |})).

(** [error instanceof Error ? error.message : "Unknown error"] *)
Definition error_message (error : thrown) : string :=
  match error with
  | JsError message => message
  | JsValue => "Unknown error"
  end.

(** The [catch] block. *)
Definition process_catch (voiceNoteId : nat) (error : thrown)
    : M world process_result :=
  runMutation (fun now => updateStatus now
    (status_args voiceNoteId Error None (Some (error_message error)))) ;;;
  throw error.

(** [process] *)
Definition process (voiceNoteId : nat) : M world process_result :=
  voiceNote <- runQuery (get voiceNoteId) ;;
  match voiceNote with
  | None => throw (JsError "Voice note not found")
  | Some v =>
      runMutation (fun now => updateStatus now
        (status_args voiceNoteId Transcribing None None)) ;;;
      try_catch (process_try voiceNoteId v) (process_catch voiceNoteId)
  end.

End WithEnv.

End VoiceNotes.

(* ===================================================================== *)
(** * Auxiliary notions used in the statements                           *)
(* ===================================================================== *)

Module Aux.
Import Text Regex Parser.

(** A pattern consumes when every match leaves strictly less input. *)
Definition consuming (re : matcher) : Prop :=
  forall s g rest, re s = Some (g, rest) -> String.length rest < String.length s.

(** Content made of whitespace only. *)
Fixpoint all_space (s : string) : bool :=
  match s with
  | EmptyString => true
  | String c r => is_space c && all_space r
  end.

(** The procedure in the order the specification words it: strip the
    markup tags of the whole content, take the first line of what remains,
    strip the heading marker, trim, default to Untitled. *)
Definition extractTitle_as_worded (content : string) : string :=
  let stripped := remove_all tagRegex content in
  let firstLine := first_line stripped in
  or_default (trim (strip_heading firstLine)) "Untitled".

(** A tag opened on the first line and closed on the second. *)
Definition split_tag_content : string :=
  "<p" +:+ String "010" ">Hello".

Definition twice_delimited : string := "[[Apple]] and [[apple]]".

(** The list [l] with every entry kept at its first occurrence only. *)
Fixpoint first_occurrences (l : list string) : list string :=
  match l with
  | [] => []
  | x :: r => x :: filter (fun y => y <> x) (first_occurrences r)
  end.

(** The union of two capture lists in first-seen order, as the extractors
    build it: the delimited captures as they come, then the attribute
    captures that are not among them, each at its first occurrence. *)
Definition union_first_seen (raw html : list string) : list string :=
  raw ++ first_occurrences (filter (fun t => t ∉ raw) html).

Import Canvas.

(** The store a computation leaves behind. *)
Definition after {A} (m : M db A) (d : db) : db := (m d).2.

Definition note_args (content : string) (links : option (list string))
    : createNodeArgs :=
  {| cn_type := TypeNote; cn_content := content;
     cn_x := 0%Q; cn_y := 0%Q; cn_width := None; cn_height := None;
     cn_messageId := None; cn_conversationId := None;
     cn_sourceType := None; cn_sourceId := None; cn_sourceUrl := None;
     cn_parentNodeId := None; cn_outgoingLinks := links |}.

(** A node with the fields [createNode] writes, stored with the owner
    that the table requires.  The stores of the examples are made of such
    documents. *)
Definition store_node (now : Z) (args : createNodeArgs) : M db nat :=
  insert_node
    {| doc_userId := Some "user"; doc_fields := created_fields now args |}.

Definition content_only (id : nat) (content : string) : updateNodeArgs :=
  {| un_id := id; un_content := Some content;
     un_x := None; un_y := None; un_width := None; un_height := None;
     un_outgoingLinks := None |}.

(** Scenario A: note 0 is titled Apple, note 1 refers to it. *)
Definition scenario_A : db :=
  after (store_node 2 (note_args "I like [[Apple]] pie" None))
    (after (store_node 1 (note_args "# Apple" None)) empty_db).

(** Scenario B: node 0 with an outgoing edge 3 and an incoming edge 4. *)
Definition scenario_B : db :=
  after (createEdge 5 2 0 None)
    (after (createEdge 4 0 1 (Some "see"))
      (after (store_node 3 (note_args "# C" None))
        (after (store_node 2 (note_args "# B" None))
          (after (store_node 1 (note_args "# A" None)) empty_db)))).

(** One note, and an edge from it to itself. *)
Definition one_note : db :=
  after (store_node 1 (note_args "# Apple" None)) empty_db.

Definition self_loop : db := after (createEdge 2 0 0 None) one_note.

(** A note whose stored link list holds the empty string. *)
Definition blank_link : db :=
  after (store_node 1 (note_args "# Pear" (Some [EmptyString]))) empty_db.

(** When a title counts as referenced by a note: some stored link equals
    it up to case, or some capture of either form in the content does. *)
Definition mentions (title : string) (note : canvasNode) : Prop :=
  (exists links link,
      node_outgoingLinks note = Some links
      /\ link ∈ links
      /\ toLowerCase link = toLowerCase title)
  \/ (exists cap,
        (cap ∈ captures rawRegex (node_content note)
         \/ cap ∈ captures htmlRegex (node_content note))
        /\ toLowerCase cap = toLowerCase title).

Import VoiceNotes.

(** How the first step of [process] fails for a voice note: no audio URL,
    a rejected audio fetch, a transcription endpoint that answers with a
    failure status, or a rejected transcription call. *)
Inductive transcription_fails (E : env) (v : voiceNote) : thrown -> Prop :=
| fails_no_url :
    storage_getUrl E (voice_fileId v) = None ->
    transcription_fails E v (JsError "Audio file not found")
| fails_fetch (url : string) (error : thrown) :
    storage_getUrl E (voice_fileId v) = Some url ->
    is_empty url = false ->
    fetch_audio E url = Throw error ->
    transcription_fails E v error
| fails_not_ok (url audioBlob errorText : string) :
    storage_getUrl E (voice_fileId v) = Some url ->
    is_empty url = false ->
    fetch_audio E url = Ok audioBlob ->
    transcribe E audioBlob = Ok (WhisperNotOk errorText) ->
    transcription_fails E v
      (JsError ("Transcription failed: " +:+ errorText))
| fails_rejected (url audioBlob : string) (error : thrown) :
    storage_getUrl E (voice_fileId v) = Some url ->
    is_empty url = false ->
    fetch_audio E url = Ok audioBlob ->
    transcribe E audioBlob = Throw error ->
    transcription_fails E v error.

(** What one similarity-linking call may do to the store, from [d] to
    [d']: nothing but add at most [k] edges, each from [nodeId] to a node
    that is neither [nodeId] nor in [excluded]. *)
Definition adds_links (k nodeId : nat) (excluded : list nat)
    (d d' : db) : Prop :=
  canvasNodes d' = canvasNodes d
  /\ voiceNotes d' = voiceNotes d
  /\ next_id d <= next_id d' <= next_id d + k
  /\ size (canvasEdges d') <= size (canvasEdges d) + k
  /\ forall eid e,
       canvasEdges d' !! eid = Some e ->
       canvasEdges d !! eid = Some e
       \/ (next_id d <= eid < next_id d'
           /\ edge_source e = nodeId
           /\ edge_target e <> nodeId
           /\ edge_target e ∉ excluded).

(** Neighbour candidates: every stored node that has an embedding. *)
Definition embedded_neighbours (nodes : gmap nat canvasNode)
    : list (option relatedNode) :=
  map (fun p => Some {| related_id := p.1; related_score := (7 # 8)%Q |})
      (filter (fun p => is_Some (node_embedding p.2)) (map_to_list nodes)).

(** Neighbour candidates: every stored node. *)
Definition all_neighbours (nodes : gmap nat canvasNode)
    : list (option relatedNode) :=
  map (fun p => Some {| related_id := p.1; related_score := (7 # 8)%Q |})
      (map_to_list nodes).

Definition concept_A : concept :=
  {| concept_title := "Apples"; concept_content := "apples keep well";
     concept_suggestedLinks := Some ["Pears"]; concept_tags := [] |}.

Definition concept_B : concept :=
  {| concept_title := "Pears"; concept_content := "pears bruise";
     concept_suggestedLinks := None; concept_tags := [] |}.

(** All collaborators answer; the transcript yields two concepts. *)
Definition batch_env : env :=
  {| identity := Some "user";
     clock := Z.of_nat;
     storage_getUrl := fun _ => Some "https://audio";
     fetch_audio := fun _ => Ok "bytes";
     transcribe := fun _ => Ok (WhisperOk "two ideas");
     extract_concepts := fun _ _ => Ok (ExtractOk [concept_A; concept_B]);
     random_x := (1 # 2)%Q;
     random_y := (1 # 4)%Q;
     embed := fun _ => Ok [(1 # 1)%Q];
     nearest := fun nodes _ => Ok (embedded_neighbours nodes) |}.

(** The transcription endpoint answers with a failure status. *)
Definition failing_env : env :=
  {| identity := Some "user";
     clock := Z.of_nat;
     storage_getUrl := fun _ => Some "https://audio";
     fetch_audio := fun _ => Ok "bytes";
     transcribe := fun _ => Ok (WhisperNotOk "quota exceeded");
     extract_concepts := fun _ _ => Ok (ExtractOk [concept_A; concept_B]);
     random_x := (1 # 2)%Q;
     random_y := (1 # 4)%Q;
     embed := fun _ => Ok [(1 # 1)%Q];
     nearest := fun nodes _ => Ok (embedded_neighbours nodes) |}.

(** The neighbour query proposes every stored node. *)
Definition crowded_env : env :=
  {| identity := Some "user";
     clock := Z.of_nat;
     storage_getUrl := fun _ => Some "https://audio";
     fetch_audio := fun _ => Ok "bytes";
     transcribe := fun _ => Ok (WhisperOk "two ideas");
     extract_concepts := fun _ _ => Ok (ExtractOk [concept_A; concept_B]);
     random_x := (1 # 2)%Q;
     random_y := (1 # 4)%Q;
     embed := fun _ => Ok [(1 # 1)%Q];
     nearest := fun nodes _ => Ok (all_neighbours nodes) |}.

Definition uploaded_note : voiceNote :=
  {| voice_userId := "user"; voice_fileId := 7;
     voice_duration := (12 # 1)%Q; voice_transcription := None;
     voice_status_of := Uploaded; voice_errorMessage := None;
     voice_createdAt := 0; voice_updatedAt := 0 |}.

(** A store holding one uploaded voice note (id 0) and nothing else. *)
Definition batch_world : world :=
  {| store := after (insert_voiceNote uploaded_note) empty_db;
     ticks := 0 |}.

(** The transcription call is rejected with an [Error] that carries no
    message. *)
Definition silent_env : env :=
  {| identity := Some "user";
     clock := Z.of_nat;
     storage_getUrl := fun _ => Some "https://audio";
     fetch_audio := fun _ => Ok "bytes";
     transcribe := fun _ => Throw (JsError EmptyString);
     extract_concepts := fun _ _ => Ok (ExtractOk [concept_A; concept_B]);
     random_x := (1 # 2)%Q;
     random_y := (1 # 4)%Q;
     embed := fun _ => Ok [(1 # 1)%Q];
     nearest := fun nodes _ => Ok (embedded_neighbours nodes) |}.

(** The note of a concept as the loop writes it for voice note 0. *)
Definition concept_note_args (c : concept) : createNodeArgs :=
  {| cn_type := TypeNote; cn_content := concept_note_content c;
     cn_x := 0%Q; cn_y := 0%Q; cn_width := None; cn_height := None;
     cn_messageId := None; cn_conversationId := None;
     cn_sourceType := Some SourceVoice; cn_sourceId := Some 0;
     cn_sourceUrl := None; cn_parentNodeId := None;
     cn_outgoingLinks := None |}.

(** A graph in the middle of a run over [concept_A] and [concept_B]:
    note 0 was on the canvas before the run, note 1 is the note of
    [concept_A], note 2 the note of [concept_B], which is about to be
    embedded and linked. *)
Definition batch_graph : world :=
  {| store :=
       after (store_node 3 (concept_note_args concept_B))
         (after (store_node 2 (concept_note_args concept_A))
            (after (store_node 1 (note_args "# Quinces" None)) empty_db));
     ticks := 4 |}.

Definition scenario_B_world : world :=
  {| store := scenario_B; ticks := 0 |}.

End Aux.

Import Aux.

(* ===================================================================== *)
(** * The rest of [convex/canvas.ts]                                     *)
(* ===================================================================== *)

Module CanvasQueries.
Import Text Regex Parser Canvas.

(** [getNodeById] *)
Definition getNodeById (id : nat) (d : db) : option canvasNode :=
  canvasNodes d !! id.

(** An element of the result of [getBacklinks]: the source node with its
    id, and the added [edgeLabel] field. *)
Record backlinkEntry := {
  entry_id : nat;
  entry_node : canvasNode;
  entry_edgeLabel : option string
}.

(** [getBacklinks]: the incoming edges, each resolved to its source node;
    [filter(Boolean)] drops the edges whose source has no document. *)
Definition getBacklinks (nodeId : nat) (d : db) : list backlinkEntry :=
  let incomingEdges := by_target nodeId d in
  let sourceNodes :=
    map (fun edge =>
           match canvasNodes d !! edge_source edge.2 with
           | Some node =>
               Some {| entry_id := edge_source edge.2;
                       entry_node := node;
                       entry_edgeLabel := edge_label edge.2 |}
           | None => None
           end) incomingEdges in
  omap (fun x => x) sourceNodes.

(** The comparator of [listNotes] puts [a] before [b] when
    [b.updatedAt - a.updatedAt] is not positive. *)
Definition newer_first (a b : nat * canvasNode) : Prop :=
  (node_updatedAt b.2 <= node_updatedAt a.2)%Z.

Global Instance newer_first_dec (a b : nat * canvasNode) :
  Decision (newer_first a b).
Proof. unfold newer_first. apply _. Defined.

(** [listNotes]; among notes with equal [updatedAt] the order is the
    sort's own. *)
Definition listNotes (d : db) : list (nat * canvasNode) :=
  let nodes := collect_nodes d in
  merge_sort newer_first (filter (fun node => is_note node = true) nodes).

(** The title computed inside [findNoteByTitle]: as [extractNoteTitle],
    without the default. *)
Definition noteTitle (content : string) : string :=
  let firstLine := first_line content in
  let cleanLine := remove_all tagRegex firstLine in
  trim (strip_heading cleanLine).

(** [notes.find(p) || null] *)
Definition find_first {A} (p : A -> bool) (l : list A) : option A :=
  head (filter (fun x => p x = true) l).

(** [findNoteByTitle] *)
Definition findNoteByTitle (title : string) (d : db)
    : option (nat * canvasNode) :=
  if is_empty title then None
  else
    let nodes := collect_nodes d in
    let notes := filter (fun n => is_note n = true) nodes in
    find_first
      (fun note =>
         String.eqb (toLowerCase (noteTitle (node_content note.2)))
                    (toLowerCase title))
      notes.

(** [findDailyNote] *)
Definition findDailyNote (dateString : string) (d : db)
    : option (nat * canvasNode) :=
  let nodes := collect_nodes d in
  let notes := filter (fun n => is_note n = true) nodes in
  find_first
    (fun note =>
       String.eqb (extractNoteTitle (node_content note.2)) dateString)
    notes.

(** An attribute [name="value"] of the daily-note template. *)
Definition attr (name value : string) : string :=
  name +:+ "=" +:+ String dquote (value +:+ String dquote EmptyString).

(** The template of [createDailyNote].  [dayName] and [monthDay] are what
    the runtime's [toLocaleDateString] returns for the date. *)
Definition dailyNoteContent (dateString dayName monthDay : string)
    : string :=
  "<h1>" +:+ dateString +:+ "</h1><h2>" +:+ dayName +:+ ", " +:+ monthDay
  +:+ "</h2><h3>Morning</h3><ul><li><p></p></li></ul><h3>Tasks</h3><ul "
  +:+ attr "data-type" "taskList" +:+ "><li "
  +:+ attr "data-type" "taskItem" +:+ " "
  +:+ attr "data-checked" "false" +:+ "><label><input "
  +:+ attr "type" "checkbox"
  +:+ "><span></span></label><div><p></p></div></li></ul>"
  +:+ "<h3>Notes</h3><p></p><h3>Evening Reflection</h3><p></p>".

(** The fields of the object literal in [createDailyNote]. *)
Definition dailyNote_fields (now : Z) (dayName monthDay : string)
    (dateString : string) (userId : string) : canvasNode :=
  {| node_userId := userId;
     node_type_of := TypeNote;
     node_content := dailyNoteContent dateString dayName monthDay;
     node_x := 0%Q;
     node_y := 0%Q;
     node_width := (300 # 1)%Q;
     node_height := (150 # 1)%Q;
     node_messageId := None;
     node_conversationId := None;
     node_sourceType := Some SourceManual;
     node_sourceId := None;
     node_sourceUrl := None;
     node_parentNodeId := None;
     node_outgoingLinks := None;
     node_embedding := None;
     node_createdAt := now;
     node_updatedAt := now |}.

(** [createDailyNote]: the object literal has no [userId] key. *)
Definition createDailyNote (now : Z) (dayName monthDay : string)
    (dateString : string) : M db nat :=
  transaction (insert_node
    {| doc_userId := None;
       doc_fields := dailyNote_fields now dayName monthDay dateString |}).

End CanvasQueries.

(* ===================================================================== *)
(** * Notions used in the further statements                             *)
(* ===================================================================== *)

Module Inv.
Import Text Regex Parser Canvas.

(** Every stored document has an id that the allocator has handed out. *)
Definition allocated (d : db) : Prop :=
  (forall k, is_Some (canvasNodes d !! k) -> k < next_id d)
  /\ (forall k, is_Some (canvasEdges d !! k) -> k < next_id d)
  /\ (forall k, is_Some (voiceNotes d !! k) -> k < next_id d).

(** No code unit of [s] satisfies [p]. *)
Fixpoint free_of (p : ascii -> bool) (s : string) : bool :=
  match s with
  | EmptyString => true
  | String c r => negb (p c) && free_of p r
  end.

Definition is_lt (c : ascii) : bool := Ascii.eqb c "<".
Definition is_lf (c : ascii) : bool := Ascii.eqb c "010".

(** Text without markup and without line feed. *)
Definition plain (s : string) : bool :=
  free_of is_lt s && free_of is_lf s.

(** A date string: digits and hyphens only. *)
Definition date_char (c : ascii) : bool :=
  let n := code c in (48 <=? n) && (n <=? 57) || (n =? 45).

Definition date_like (s : string) : bool := free_of (fun c => negb (date_char c)) s.

End Inv.

Import CanvasQueries Inv.

(* ===================================================================== *)
(** * The rest of [convex/voiceNotes.ts]                                 *)
(* ===================================================================== *)

Module VoiceNotesQueries.
Import Text Canvas VoiceNotes.

(** [create]: the record written after an upload. *)
Definition create (E : env) (now : Z) (fileId : nat) (duration : Q)
    : M db nat :=
  transaction (
    subject <- getAuthenticatedUser E ;;
    insert_voiceNote
      {| voice_userId := subject;
         voice_fileId := fileId;
         voice_duration := duration;
         voice_transcription := None;
         voice_status_of := Uploaded;
         voice_errorMessage := None;
         voice_createdAt := now;
         voice_updatedAt := now |}).

(** Ids are handed out in creation order: the later document has the
    larger id. *)
Definition later_first (a b : nat * voiceNote) : Prop := b.1 <= a.1.

Global Instance later_first_dec (a b : nat * voiceNote) :
  Decision (later_first a b).
Proof. unfold later_first. apply _. Defined.

(** [list]: the caller's voice notes, latest first, at most [limit] of
    them, 20 when no limit is given. *)
Definition list (E : env) (limit : option nat)
    : M db (list (nat * voiceNote)) :=
  subject <- getAuthenticatedUser E ;;
  gets (fun d =>
    take (default 20 limit)
      (merge_sort later_first
         (filter (fun p => voice_userId p.2 = subject)
                 (map_to_list (voiceNotes d))))).

End VoiceNotesQueries.

(* ===================================================================== *)
(** * Notions used in the statements about the pipeline                  *)
(* ===================================================================== *)

Module PipelineNotions.
Import Text Canvas VoiceNotes.

(** From [d] to [d'] the allocator has only advanced, the voice notes are
    the same, and no node or edge with an id below [b] has changed. *)
Definition loop_frame (b : nat) (d d' : db) : Prop :=
  next_id d <= next_id d'
  /\ voiceNotes d' = voiceNotes d
  /\ (b <= next_id d ->
      (forall k, k < b -> canvasNodes d' !! k = canvasNodes d !! k)
      /\ (forall k, k < b -> canvasEdges d' !! k = canvasEdges d !! k)).

(** The note that the pipeline writes for a concept of a voice note. *)
Definition concept_node (voiceNoteId : nat) (c : concept)
    (n : canvasNode) : Prop :=
  node_type_of n = TypeNote
  /\ node_content n = concept_note_content c
  /\ node_sourceType n = Some SourceVoice
  /\ node_sourceId n = Some voiceNoteId.

(** The first step succeeds with the transcript [text]. *)
Definition transcribes (E : env) (v : voiceNote) (text : string) : Prop :=
  exists url audioBlob,
    storage_getUrl E (voice_fileId v) = Some url
    /\ is_empty url = false
    /\ fetch_audio E url = Ok audioBlob
    /\ transcribe E audioBlob = Ok (WhisperOk text).

(** How the extraction call fails on a transcript and a list of existing
    contents: a failure status, or a rejected call. *)
Inductive extraction_fails (E : env) (text : string)
    (existing : list string) : thrown -> Prop :=
| extraction_not_ok (error : string) :
    extract_concepts E text existing = Ok (ExtractNotOk error) ->
    extraction_fails E text existing
      (JsError ("Concept extraction failed: " +:+ error))
| extraction_rejected (error : thrown) :
    extract_concepts E text existing = Throw error ->
    extraction_fails E text existing error.

(** The caller owns the voice note. *)
Definition owned (E : env) (voiceNoteId : nat) (d : db) : Prop :=
  exists v,
    voiceNotes d !! voiceNoteId = Some v
    /\ identity E = Some (voice_userId v).

End PipelineNotions.

Import PipelineNotions.


(* ===================================================================== *)
(** * Further collaborators for the pipeline's examples                  *)
(* ===================================================================== *)

Module Scenarios.
Import Text Canvas VoiceNotes Aux.

(** The extraction endpoint answers with a failure status. *)
Definition unparsed_env : env :=
  {| identity := Some "user";
     clock := Z.of_nat;
     storage_getUrl := fun _ => Some "https://audio";
     fetch_audio := fun _ => Ok "bytes";
     transcribe := fun _ => Ok (WhisperOk "two ideas");
     extract_concepts := fun _ _ => Ok (ExtractNotOk "bad gateway");
     random_x := (1 # 2)%Q;
     random_y := (1 # 4)%Q;
     embed := fun _ => Ok [(1 # 1)%Q];
     nearest := fun nodes _ => Ok (embedded_neighbours nodes) |}.

(** The extraction finds no concept in the transcript. *)
Definition no_concepts_env : env :=
  {| identity := Some "user";
     clock := Z.of_nat;
     storage_getUrl := fun _ => Some "https://audio";
     fetch_audio := fun _ => Ok "bytes";
     transcribe := fun _ => Ok (WhisperOk "two ideas");
     extract_concepts := fun _ _ => Ok (ExtractOk []);
     random_x := (1 # 2)%Q;
     random_y := (1 # 4)%Q;
     embed := fun _ => Ok [(1 # 1)%Q];
     nearest := fun nodes _ => Ok (embedded_neighbours nodes) |}.

(** Nobody is signed in. *)
Definition anonymous_env : env :=
  {| identity := None;
     clock := Z.of_nat;
     storage_getUrl := fun _ => Some "https://audio";
     fetch_audio := fun _ => Ok "bytes";
     transcribe := fun _ => Ok (WhisperOk "two ideas");
     extract_concepts := fun _ _ => Ok (ExtractOk [concept_A; concept_B]);
     random_x := (1 # 2)%Q;
     random_y := (1 # 4)%Q;
     embed := fun _ => Ok [(1 # 1)%Q];
     nearest := fun nodes _ => Ok (embedded_neighbours nodes) |}.

(** A canvas with three notes and two edges, and an uploaded voice note
    (id 5). *)
Definition canvas_world : world :=
  {| store := after (insert_voiceNote uploaded_note) scenario_B;
     ticks := 9 |}.

End Scenarios.

Import Scenarios.
(* ===================================================================== *)
(** * Properties of the text layer                                       *)
(* ===================================================================== *)

Section TextFacts.
Import Text Regex.

Lemma lower_char_idem (c : ascii) : lower_char (lower_char c) = lower_char c.
Proof.
  destruct c as [[] [] [] [] [] [] [] []]; vm_compute; reflexivity.
Qed.

Lemma toLowerCase_idem (s : string) : toLowerCase (toLowerCase s) = toLowerCase s.
Proof.
  induction s as [|c s IH]; simpl; [done|].
  by rewrite lower_char_idem, IH.
Qed.

Lemma is_empty_true (s : string) : is_empty s = true <-> s = EmptyString.
Proof. destruct s; simpl; split; congruence. Qed.

Lemma or_default_nonempty (x dflt : string) :
  dflt <> EmptyString -> or_default x dflt <> EmptyString.
Proof.
  intros Hd. unfold or_default. destruct x; simpl; [done|congruence].
Qed.

Lemma span_until_length (stop : ascii) (s x r : string) :
  span_until stop s = (x, r) ->
  String.length s = String.length x + String.length r.
Proof.
  revert x r. induction s as [|c s IH]; intros x r; simpl.
  - intros [= <- <-]. reflexivity.
  - destruct (Ascii.eqb c stop).
    + intros [= <- <-]. reflexivity.
    + destruct (span_until stop s) as [x' r'] eqn:Hs.
      intros [= <- <-]. simpl. f_equal. by apply IH.
Qed.

Lemma strip_prefix_length (p s r : string) :
  strip_prefix p s = Some r ->
  String.length s = String.length p + String.length r.
Proof.
  revert s. induction p as [|a p IH]; intros s; simpl.
  - intros [= <-]. reflexivity.
  - destruct s as [|b s]; [congruence|].
    destruct (Ascii.eqb a b); [|congruence].
    intros H. simpl. f_equal. by apply IH.
Qed.


Lemma rawRegex_consuming : consuming rawRegex.
Proof.
  intros s g rest H. unfold rawRegex in H.
  repeat case_match; simplify_eq.
  match goal with H : span_until _ _ = _ |- _ =>
    apply span_until_length in H; simpl in *; lia end.
Qed.

Lemma htmlRegex_consuming : consuming htmlRegex.
Proof.
  intros s g rest H. unfold htmlRegex in H.
  destruct (strip_prefix _ s) as [r|] eqn:Hp; [|congruence].
  apply strip_prefix_length in Hp.
  repeat case_match; simplify_eq.
  match goal with H : span_until _ _ = _ |- _ =>
    apply span_until_length in H; simpl in *; lia end.
Qed.

Lemma tagRegex_consuming : consuming tagRegex.
Proof.
  intros s g rest H. unfold tagRegex in H.
  repeat case_match; simplify_eq.
  match goal with H : span_until _ _ = _ |- _ =>
    apply span_until_length in H; simpl in *; lia end.
Qed.

Lemma exec_consuming (re : matcher) :
  consuming re ->
  forall s g rest, exec re s = Some (g, rest) ->
                   String.length rest < String.length s.
Proof.
  intros Hre. induction s as [|c s IH]; intros g rest; simpl.
  - destruct (re EmptyString) as [[g' r']|] eqn:Hm; [|congruence].
    intros [= <- <-]. by apply Hre in Hm.
  - destruct (re (String c s)) as [[g' r']|] eqn:Hm.
    + intros [= <- <-]. by apply Hre in Hm.
    + intros H. apply IH in H. lia.
Qed.

(** The iteration bound of [captures] is enough: more fuel changes
    nothing. *)
Lemma exec_loop_enough (re : matcher) :
  consuming re ->
  forall n m s, String.length s < n -> String.length s < m ->
                exec_loop n re s = exec_loop m re s.
Proof.
  intros Hre. induction n as [|n IH]; intros m s Hn Hm; [lia|].
  destruct m as [|m]; [lia|]. simpl.
  destruct (exec re s) as [[g rest]|] eqn:He; [|done].
  pose proof (exec_consuming re Hre _ _ _ He).
  f_equal. apply IH; lia.
Qed.

Lemma remove_loop_enough (re : matcher) :
  consuming re ->
  forall n m s, String.length s < n -> String.length s < m ->
                remove_loop n re s = remove_loop m re s.
Proof.
  intros Hre. induction n as [|n IH]; intros m s Hn Hm; [lia|].
  destruct m as [|m]; [lia|]. simpl.
  destruct (re s) as [[g rest]|] eqn:He.
  - pose proof (Hre _ _ _ He). apply IH; lia.
  - destruct s as [|c r]; [done|]. simpl in *. f_equal. apply IH; lia.
Qed.


Lemma first_line_all_space (s : string) :
  all_space s = true -> all_space (first_line s) = true.
Proof.
  induction s as [|c s IH]; simpl; [done|].
  intros [Hc Hs]%andb_true_iff.
  destruct (Ascii.eqb c "010"); simpl; [done|].
  rewrite Hc. by apply IH.
Qed.

Lemma is_space_not_lt (c : ascii) : is_space c = true -> c <> "<"%char.
Proof. intros H ->. vm_compute in H. discriminate. Qed.

Lemma is_space_not_hash (c : ascii) : is_space c = true -> c <> "#"%char.
Proof. intros H ->. vm_compute in H. discriminate. Qed.

Lemma tagRegex_head (c : ascii) (s : string) :
  c <> "<"%char -> tagRegex (String c s) = None.
Proof.
  intros Hc. unfold tagRegex.
  destruct c as [[] [] [] [] [] [] [] []]; try reflexivity.
  by destruct Hc.
Qed.

Lemma remove_loop_all_space (n : nat) (s : string) :
  all_space s = true -> remove_loop n tagRegex s = s.
Proof.
  revert s. induction n as [|n IH]; intros s Hs; [done|].
  destruct s as [|c r]; [done|].
  apply andb_true_iff in Hs as [Hc Hr].
  cbn [remove_loop]. rewrite tagRegex_head by by apply is_space_not_lt.
  f_equal. by apply IH.
Qed.

Lemma strip_heading_all_space (s : string) :
  all_space s = true -> strip_heading s = s.
Proof.
  destruct s as [|c r]; [done|].
  intros [Hc _]%andb_true_iff. apply is_space_not_hash in Hc.
  unfold strip_heading.
  destruct c as [[] [] [] [] [] [] [] []]; try reflexivity.
  by destruct Hc.
Qed.

Lemma trim_all_space (s : string) :
  all_space s = true -> trim s = EmptyString.
Proof.
  unfold trim, trimStart.
  induction s as [|c r IH]; [done|].
  intros [Hc Hr]%andb_true_iff. simpl. rewrite Hc. by apply IH.
Qed.

End TextFacts.

(* ===================================================================== *)
(** * Content parser: titles                                             *)
(* ===================================================================== *)

Section TitleFacts.
Import Text Regex Parser.


(** C9, as stated, fails: the code cuts the first line before it strips
    tags, so a tag that spans a line feed is not removed.  On the content
    made of [<p], a line feed and [>Hello] the code returns [<p] where the
    worded procedure returns [Hello]. *)
Lemma extractTitle_order_counterexample :
  extractNoteTitle split_tag_content = "<p"
  /\ extractTitle_as_worded split_tag_content = "Hello"
  /\ extractNoteTitle split_tag_content
     <> extractTitle_as_worded split_tag_content.
Proof. vm_compute. split_and!; congruence. Qed.

(** C9 (amended): for every content, [extractNoteTitle] returns a
    non-empty string.  It is the trimmed, heading-stripped, tag-stripped
    first line of the content when that is non-empty and Untitled
    otherwise; for empty or whitespace-only content it is Untitled. *)
Theorem extractNoteTitle_never_empty (content : string) :
  let line :=
    trim (strip_heading (remove_all tagRegex (first_line content))) in
  extractNoteTitle content <> EmptyString
  /\ (line = EmptyString -> extractNoteTitle content = "Untitled")
  /\ (line <> EmptyString -> extractNoteTitle content = line)
  /\ (all_space content = true -> extractNoteTitle content = "Untitled").
Proof.
  cbn zeta. unfold extractNoteTitle.
  set (line := trim _). split_and!.
  - apply or_default_nonempty. discriminate.
  - intros ->. reflexivity.
  - intros Hne. unfold or_default. destruct line; [done|reflexivity].
  - intros Hs. subst line.
    apply first_line_all_space in Hs.
    unfold remove_all. rewrite remove_loop_all_space by done.
    rewrite strip_heading_all_space by done.
    by rewrite trim_all_space.
Qed.

Lemma extractNoteTitle_never_empty_witness :
  extractNoteTitle "   " = "Untitled"
  /\ extractNoteTitle "# Apple" = "Apple".
Proof.
  split.
  - apply (extractNoteTitle_never_empty "   "). reflexivity.
  - apply (extractNoteTitle_never_empty "# Apple"). vm_compute. discriminate.
Defined.

(** Scenario C of the specification. *)
Example extractNoteTitle_scenario_C :
  extractNoteTitle ("<h1>Hello World</h1>" +:+ String "010" "Body")
  = "Hello World".
Proof. vm_compute. reflexivity. Qed.

Example extractNoteTitle_empty : extractNoteTitle EmptyString = "Untitled".
Proof. reflexivity. Qed.

End TitleFacts.

(* ===================================================================== *)
(** * Content parser: referenced titles                                  *)
(* ===================================================================== *)

Section LinkFacts.
Import Text Regex Parser.

Lemma includes_true (links : list string) (t : string) :
  includes links t = true <-> t ∈ links.
Proof. unfold includes. apply bool_decide_eq_true. Qed.

Lemma foldl_push_map (f : string -> string) (ms l0 : list string) :
  foldl (fun links m => push_new links (f m)) l0 ms
  = foldl push_new l0 (map f ms).
Proof. revert l0. induction ms as [|m ms IH]; intros l0; simpl; auto. Qed.

(** What the second loop does to a list [l0] it starts from: it appends,
    in order of first occurrence, the titles of [ms] that are new. *)
Lemma foldl_push_new_spec (ms l0 : list string) :
  exists added,
    foldl push_new l0 ms = l0 ++ added
    /\ NoDup added
    /\ (forall t, t ∈ added -> t ∉ l0)
    /\ added `sublist_of` ms
    /\ (forall t, t ∈ ms -> t ∈ l0 ++ added).
Proof.
  revert l0. induction ms as [|m ms IH]; intros l0; simpl.
  - exists []. rewrite app_nil_r. split_and!; try constructor.
    + intros t Ht. by apply elem_of_nil in Ht.
    + intros t Ht. by apply elem_of_nil in Ht.
  - unfold push_new at 2. destruct (includes l0 m) eqn:Hin.
    + apply includes_true in Hin.
      destruct (IH l0) as (added & Heq & Hnd & Hnew & Hsub & Hall).
      exists added. split_and!; auto.
      * by apply sublist_cons.
      * intros t [->|Ht]%elem_of_cons; [|by apply Hall].
        apply elem_of_app. by left.
    + assert (Hm : m ∉ l0).
      { intros H. apply includes_true in H. congruence. }
      destruct (IH (l0 ++ [m])) as (added & Heq & Hnd & Hnew & Hsub & Hall).
      exists (m :: added). split_and!.
      * rewrite Heq. by rewrite <- app_assoc.
      * constructor; [|done]. intros Hma. apply (Hnew _ Hma).
        apply elem_of_app. right. by apply list_elem_of_singleton.
      * intros t [->|Ht]%elem_of_cons; [done|].
        intros Hl. apply (Hnew _ Ht). apply elem_of_app. by left.
      * by apply sublist_skip.
      * intros t [->|Ht]%elem_of_cons.
        -- apply elem_of_app. right. by left.
        -- apply Hall in Ht. rewrite <- app_assoc in Ht. exact Ht.
Qed.

(** A list survives the second loop without duplicates when it had none
    before. *)
Lemma foldl_push_new_NoDup (ms l0 : list string) :
  NoDup l0 -> NoDup (foldl push_new l0 ms).
Proof.
  intros Hl0.
  destruct (foldl_push_new_spec ms l0) as (added & -> & Hnd & Hnew & _).
  apply NoDup_app. split_and!; auto.
  intros t Hl Ha. by apply (Hnew t).
Qed.


(** Membership in the result of [extractWikiLinksFromContent]. *)
Lemma extractWikiLinksFromContent_elem (content t : string) :
  t ∈ extractWikiLinksFromContent content
  <-> t ∈ map toLowerCase (captures rawRegex content)
      \/ t ∈ map toLowerCase (captures htmlRegex content).
Proof.
  unfold extractWikiLinksFromContent. rewrite foldl_push_map.
  destruct (foldl_push_new_spec
              (map toLowerCase (captures htmlRegex content))
              (map toLowerCase (captures rawRegex content)))
    as (added & Heq & _ & _ & Hsub & Hall).
  rewrite Heq, elem_of_app. split.
  - intros [Hr|Ha]; [by left|]. right. by eapply elem_of_sublist.
  - intros [Hr|Hh]; [by left|]. apply elem_of_app. by apply Hall.
Qed.

Lemma filter_first_occurrences (P : string -> Prop)
    `{!forall x, Decision (P x)} (l : list string) :
  filter P (first_occurrences l) = first_occurrences (filter P l).
Proof.
  induction l as [|x r IH]; [done|].
  cbn [first_occurrences]. rewrite !filter_cons.
  destruct (decide (P x)) as [Hx|Hx].
  - cbn [first_occurrences]. f_equal. rewrite <- IH.
    rewrite !list_filter_filter. apply list_filter_iff. tauto.
  - rewrite <- IH. rewrite list_filter_filter. apply list_filter_iff.
    intros y. split; [tauto|]. intros Hy. split; [done|].
    by intros ->.
Qed.

(** The second loop builds the union in first-seen order. *)
Lemma foldl_push_new_union (ms l0 : list string) :
  foldl push_new l0 ms = union_first_seen l0 ms.
Proof.
  unfold union_first_seen. revert l0.
  induction ms as [|m ms IH]; intros l0.
  - simpl. by rewrite app_nil_r.
  - cbn [foldl]. unfold push_new at 2. rewrite filter_cons.
    destruct (includes l0 m) eqn:Hin.
    + apply includes_true in Hin.
      rewrite decide_False by (intros H; by apply H).
      apply IH.
    + assert (Hm : m ∉ l0).
      { intros H. apply includes_true in H. congruence. }
      rewrite decide_True by done.
      rewrite IH. cbn [first_occurrences].
      rewrite <- app_assoc. cbn [app]. do 2 f_equal.
      rewrite filter_first_occurrences. f_equal.
      rewrite list_filter_filter. apply list_filter_iff.
      intros y. rewrite not_elem_of_app, list_elem_of_singleton. tauto.
Qed.

(** C3, as stated, fails.  The first loop pushes every delimited capture
    without looking at the list, so a title written twice in delimited form
    is returned twice; and the editor's [extractWikiLinks] does not
    lower-case. *)
Lemma extractWikiLinks_counterexample :
  extractWikiLinksFromContent twice_delimited = ["apple"; "apple"]
  /\ ~ NoDup (extractWikiLinksFromContent twice_delimited)
  /\ extractWikiLinks twice_delimited = ["Apple"; "apple"]
  /\ toLowerCase "Apple" <> "Apple".
Proof.
  assert (H : extractWikiLinksFromContent twice_delimited
              = ["apple"; "apple"]) by (vm_compute; reflexivity).
  split_and!.
  - exact H.
  - rewrite H. intros Hnd. apply NoDup_cons in Hnd as [Hni _].
    apply Hni. by left.
  - vm_compute. reflexivity.
  - vm_compute. discriminate.
Qed.

(** C3 (amended): [extractWikiLinksFromContent] returns the lower-cased
    delimited captures in order, followed by the lower-cased attribute
    captures that were not in the list yet, each once and in order of first
    occurrence.  So the result is the union of both forms, every entry is
    lower-cased, no attribute-form title duplicates an entry, and the list
    is duplicate-free whenever the delimited captures are pairwise distinct
    after lower-casing.  The editor's [extractWikiLinks] has the same shape
    on the captures as written: its result is the union of both forms, the
    delimited captures in order followed by the attribute captures that are
    not among them, each at its first occurrence. *)
Theorem extractWikiLinksFromContent_union (content : string) :
  let raw := map toLowerCase (captures rawRegex content) in
  let html := map toLowerCase (captures htmlRegex content) in
  let links := extractWikiLinksFromContent content in
  (forall t, t ∈ links <-> t ∈ raw \/ t ∈ html)
  /\ (forall t, t ∈ links -> toLowerCase t = t)
  /\ (exists added,
        links = raw ++ added
        /\ NoDup added
        /\ (forall t, t ∈ added -> t ∉ raw)
        /\ added `sublist_of` html)
  /\ (NoDup raw -> NoDup links)
  /\ (exists added,
        extractWikiLinks content = captures rawRegex content ++ added
        /\ NoDup added
        /\ (forall t, t ∈ added -> t ∉ captures rawRegex content)
        /\ added `sublist_of` captures htmlRegex content)
  /\ links = union_first_seen raw html
  /\ extractWikiLinks content
     = union_first_seen (captures rawRegex content)
                        (captures htmlRegex content)
  /\ (forall t, t ∈ extractWikiLinks content
                <-> t ∈ captures rawRegex content
                    \/ t ∈ captures htmlRegex content).
Proof.
  cbn zeta. unfold extractWikiLinksFromContent, extractWikiLinks.
  rewrite foldl_push_map.
  set (raw := map toLowerCase (captures rawRegex content)).
  set (html := map toLowerCase (captures htmlRegex content)).
  destruct (foldl_push_new_spec html raw)
    as (added & Heq & Hnd & Hnew & Hsub & Hall).
  assert (Hmem : forall t, t ∈ foldl push_new raw html
                           <-> t ∈ raw \/ t ∈ html).
  { intros t. pose proof (extractWikiLinksFromContent_elem content t) as H.
    unfold extractWikiLinksFromContent in H.
    by rewrite foldl_push_map in H. }
  split_and!.
  - apply Hmem.
  - intros t [Ht|Ht]%Hmem; subst raw html;
      apply list_elem_of_fmap in Ht as (u & -> & _);
      apply toLowerCase_idem.
  - exists added. by rewrite Heq.
  - intros Hraw. by apply foldl_push_new_NoDup.
  - destruct (foldl_push_new_spec (captures htmlRegex content)
                (captures rawRegex content))
      as (added' & Heq' & Hnd' & Hnew' & Hsub' & _).
    exists added'. by rewrite Heq'.
  - apply foldl_push_new_union.
  - apply foldl_push_new_union.
  - intros t.
    destruct (foldl_push_new_spec (captures htmlRegex content)
                (captures rawRegex content))
      as (added' & Heq' & _ & _ & Hsub' & Hall').
    rewrite Heq', elem_of_app. split.
    + intros [Hr|Ha]; [by left|]. right. by eapply elem_of_sublist.
    + intros [Hr|Hh]; [by left|]. apply elem_of_app. by apply Hall'.
Qed.

Lemma extractWikiLinksFromContent_union_witness :
  NoDup (extractWikiLinksFromContent "[[Apple]] and [[Pear]]").
Proof.
  apply (extractWikiLinksFromContent_union "[[Apple]] and [[Pear]]").
  vm_compute. apply NoDup_cons_2; [|apply NoDup_singleton].
  intros H%list_elem_of_singleton. discriminate.
Defined.

(** The markup the editor writes for one link carries the title in both
    forms; it is returned once. *)
Example extractWikiLinks_span :
  extractWikiLinks
    ("<span data-title=" +:+ String dquote ("Pear" +:+ String dquote
       ">[[Pear]]</span>"))
  = ["Pear"].
Proof. vm_compute. reflexivity. Qed.

End LinkFacts.

(* ===================================================================== *)
(** * The store and the repository                                       *)
(* ===================================================================== *)

Section RepositoryFacts.
Import Text Regex Parser Canvas NoteEditor.

Lemma elem_of_by_source (id eid : nat) (e : canvasEdge) (d : db) :
  (eid, e) ∈ by_source id d
  <-> canvasEdges d !! eid = Some e /\ edge_source e = id.
Proof.
  unfold by_source, collect_edges.
  rewrite list_elem_of_filter, elem_of_map_to_list. simpl. tauto.
Qed.

Lemma elem_of_by_target (id eid : nat) (e : canvasEdge) (d : db) :
  (eid, e) ∈ by_target id d
  <-> canvasEdges d !! eid = Some e /\ edge_target e = id.
Proof.
  unfold by_target, collect_edges.
  rewrite list_elem_of_filter, elem_of_map_to_list. simpl. tauto.
Qed.

Lemma by_source_NoDup (id : nat) (d : db) : NoDup (by_source id d).*1.
Proof.
  eapply sublist_NoDup; [apply (NoDup_fst_map_to_list (canvasEdges d))|].
  apply fmap_sublist, sublist_filter.
Qed.

Lemma by_target_NoDup (id : nat) (d : db) : NoDup (by_target id d).*1.
Proof.
  eapply sublist_NoDup; [apply (NoDup_fst_map_to_list (canvasEdges d))|].
  apply fmap_sublist, sublist_filter.
Qed.

Lemma delete_edge_eq (k : nat) (d : db) :
  delete_edge k d
  = match canvasEdges d !! k with
    | Some _ => (Ok tt, set_edges (delete k) d)
    | None => (Throw (not_found "Delete"), d)
    end.
Proof. reflexivity. Qed.

Lemma for_each_cons {S A} (a : A) (l : list A) (body : A -> M S unit)
    (s : S) :
  for_each (a :: l) body s
  = match body a s with
    | (Ok _, s') => for_each l body s'
    | (Throw e, s') => (Throw e, s')
    end.
Proof. reflexivity. Qed.

(** The cascade loop either deletes every listed edge or stops with the
    store's not-found error. *)
Lemma cascade_loop_outcome (l : list (nat * canvasEdge)) (d : db) :
  (exists d', for_each l (fun edge => delete_edge edge.1) d = (Ok tt, d'))
  \/ (exists d', for_each l (fun edge => delete_edge edge.1) d
                 = (Throw (not_found "Delete"), d')).
Proof.
  revert d. induction l as [|a l IH]; intros d.
  - left. by eexists.
  - rewrite for_each_cons, delete_edge_eq.
    destruct (canvasEdges d !! a.1); [apply IH|].
    right. by eexists.
Qed.

(** When the loop completes, the listed ids were present and pairwise
    distinct, the nodes are untouched, and exactly the listed edges are
    gone. *)
Lemma cascade_loop_ok (l : list (nat * canvasEdge)) (d d' : db) :
  for_each l (fun edge => delete_edge edge.1) d = (Ok tt, d') ->
  NoDup l.*1
  /\ (forall k, k ∈ l.*1 -> is_Some (canvasEdges d !! k))
  /\ canvasNodes d' = canvasNodes d
  /\ (forall k, k ∈ l.*1 -> canvasEdges d' !! k = None)
  /\ (forall k, k ∉ l.*1 -> canvasEdges d' !! k = canvasEdges d !! k).
Proof.
  revert d. induction l as [|a l IH]; intros d.
  - intros [= <-]. split_and!; try done; try constructor.
    + intros k Hk. by apply elem_of_nil in Hk.
    + intros k Hk. by apply elem_of_nil in Hk.
  - rewrite for_each_cons, delete_edge_eq.
    destruct (canvasEdges d !! a.1) as [e|] eqn:Ha; [|congruence].
    intros H. apply IH in H as (Hnd & Hpresent & Hnodes & Hgone & Hkept).
    simpl in Hpresent, Hnodes, Hkept.
    assert (Hnotin : a.1 ∉ l.*1).
    { intros Hin. apply Hpresent in Hin.
      rewrite lookup_delete_eq in Hin. by destruct Hin. }
    rewrite fmap_cons. split_and!.
    + by constructor.
    + intros k [->|Hk]%elem_of_cons; [by eexists|].
      specialize (Hpresent _ Hk).
      destruct (decide (k = a.1)) as [->|Hne]; [done|].
      by rewrite lookup_delete_ne in Hpresent.
    + done.
    + intros k [->|Hk]%elem_of_cons; [|by apply Hgone].
      rewrite Hkept by done. apply lookup_delete_eq.
    + intros k Hk. apply not_elem_of_cons in Hk as [Hne Hk].
      rewrite Hkept by done. by apply lookup_delete_ne.
Qed.

(** C1: after [deleteNode id] has completed, the node is gone and no edge
    of the store has [id] as its source or as its target; the edges that
    did not touch [id] are all still there. *)
Theorem deleteNode_cascade (id : nat) (d d' : db) :
  deleteNode id d = (Ok tt, d') ->
  canvasNodes d' !! id = None
  /\ (forall eid e, canvasEdges d' !! eid = Some e ->
                    edge_source e <> id /\ edge_target e <> id)
  /\ (forall eid e, canvasEdges d !! eid = Some e ->
                    edge_source e <> id -> edge_target e <> id ->
                    canvasEdges d' !! eid = Some e).
Proof.
  unfold deleteNode, transaction.
  destruct (deleteNode_handler id d) as [[[]|err] d1] eqn:Hh; [|congruence].
  intros [= <-]. revert Hh.
  unfold deleteNode_handler, bind, gets.
  set (l := by_source id d ++ by_target id d).
  destruct (for_each l _ d) as [[[]|err] d2] eqn:Hloop; [|congruence].
  unfold delete_node.
  destruct (canvasNodes d2 !! id) as [n|] eqn:Hn; [|congruence].
  intros [= <-]. simpl.
  apply cascade_loop_ok in Hloop as (_ & _ & _ & Hgone & Hkept).
  assert (Hlisted : forall eid e,
             canvasEdges d !! eid = Some e ->
             edge_source e = id \/ edge_target e = id -> eid ∈ l.*1).
  { intros eid e He Hinc. apply list_elem_of_fmap. exists (eid, e).
    split; [done|]. subst l. apply elem_of_app.
    destruct Hinc as [Hs|Ht].
    - left. by apply elem_of_by_source.
    - right. by apply elem_of_by_target. }
  split_and!.
  - apply lookup_delete_eq.
  - intros eid e He.
    destruct (decide (eid ∈ l.*1)) as [Hin|Hout].
    { rewrite Hgone in He by done. discriminate. }
    rewrite Hkept in He by done.
    split; intros Heq; apply Hout; eapply Hlisted; eauto.
  - intros eid e He Hs Ht. rewrite Hkept; [done|].
    intros ([k e'] & Hk & Hin)%list_elem_of_fmap. simpl in Hk. subst k.
    subst l. apply elem_of_app in Hin as [Hin|Hin].
    + apply elem_of_by_source in Hin as [He' Hs']. congruence.
    + apply elem_of_by_target in Hin as [He' Ht']. congruence.
Qed.

Lemma deleteNode_cascade_witness :
  canvasNodes (after (deleteNode 0) scenario_B) !! 0 = None
  /\ (forall eid e,
        canvasEdges (after (deleteNode 0) scenario_B) !! eid = Some e ->
        edge_source e <> 0 /\ edge_target e <> 0).
Proof.
  destruct (deleteNode_cascade 0 scenario_B (after (deleteNode 0) scenario_B))
    as (Hnode & Hedges & _).
  - vm_compute. reflexivity.
  - split; [exact Hnode | exact Hedges].
Defined.

(** Scenario B of the specification: both edges of node 0 are gone. *)
Example deleteNode_scenario_B :
  (deleteNode 0 scenario_B).1 = Ok tt
  /\ length (listEdges scenario_B) = 2
  /\ listEdges (after (deleteNode 0) scenario_B) = [].
Proof. vm_compute. split_and!; try reflexivity. Qed.

(** When the loop stops, it stops at a listed edge whose id is no
    longer stored, after having deleted the edges listed before it. *)
Lemma cascade_loop_throw (l : list (nat * canvasEdge)) (d d' : db)
    (err : thrown) :
  for_each l (fun edge => delete_edge edge.1) d = (Throw err, d') ->
  exists pre x post,
    l = pre ++ x :: post
    /\ for_each pre (fun edge => delete_edge edge.1) d = (Ok tt, d')
    /\ canvasEdges d' !! x.1 = None.
Proof.
  revert d. induction l as [|a l IH]; intros d; [by intros [=]|].
  rewrite for_each_cons, delete_edge_eq.
  destruct (canvasEdges d !! a.1) as [e|] eqn:Ha.
  - intros H. apply IH in H as (pre & x & post & -> & Hpre & Hx).
    exists (a :: pre), x, post. split_and!; [done| |done].
    by rewrite for_each_cons, delete_edge_eq, Ha.
  - intros [= <- <-]. by exists [], a, l.
Qed.

(** C10: when node [id] has a self-loop edge, the edge is listed by both
    index queries of [deleteNode id], once in the by-source list and once in
    the by-target list.  The handler therefore stops inside its loop: it
    has deleted every edge listed before the stopping point, this edge
    among them, and then issues a delete on a listed edge that goes from
    the node to itself and that it has already deleted in the same
    cascade.  That delete finds no document; the handler throws the
    store's not-found error with the node still stored, and the mutation
    is rolled back. *)
Theorem deleteNode_self_loop_deleted_twice (id eid : nat) (e : canvasEdge)
    (d : db) :
  canvasEdges d !! eid = Some e ->
  edge_source e = id ->
  edge_target e = id ->
  (eid, e) ∈ by_source id d
  /\ (eid, e) ∈ by_target id d
  /\ (exists d1 pre again post,
        deleteNode_handler id d = (Throw (not_found "Delete"), d1)
        /\ by_source id d ++ by_target id d = pre ++ again :: post
        /\ for_each pre (fun edge => delete_edge edge.1) d = (Ok tt, d1)
        /\ again.1 ∈ pre.*1
        /\ canvasEdges d !! again.1 = Some again.2
        /\ edge_source again.2 = id
        /\ edge_target again.2 = id
        /\ canvasEdges d1 !! again.1 = None
        /\ delete_edge again.1 d1 = (Throw (not_found "Delete"), d1)
        /\ canvasEdges d1 !! eid = None
        /\ canvasNodes d1 = canvasNodes d)
  /\ deleteNode id d = (Throw (not_found "Delete"), d).
Proof.
  intros He Hs Ht.
  assert (Hsrc : (eid, e) ∈ by_source id d) by by apply elem_of_by_source.
  assert (Htgt : (eid, e) ∈ by_target id d) by by apply elem_of_by_target.
  assert (Hthrow : exists d1,
             for_each (by_source id d ++ by_target id d)
                      (fun edge => delete_edge edge.1) d
             = (Throw (not_found "Delete"), d1)).
  { destruct (cascade_loop_outcome (by_source id d ++ by_target id d) d)
      as [[d1 Hloop]|Hloop]; [|done].
    exfalso.
    apply cascade_loop_ok in Hloop as (Hnd & _).
    rewrite fmap_app in Hnd. apply NoDup_app in Hnd as (_ & Hdisj & _).
    apply (Hdisj eid).
    - by apply (list_elem_of_fmap_2 fst) in Hsrc.
    - by apply (list_elem_of_fmap_2 fst) in Htgt. }
  destruct Hthrow as [d1 Hthrow].
  split; [done|]. split; [done|]. split; cycle 1.
  { unfold deleteNode, transaction, deleteNode_handler, bind, gets.
    by rewrite Hthrow. }
  pose proof Hthrow as Hstop.
  apply cascade_loop_throw in Hstop
    as (pre & [k e'] & post & Hl & Hpre & Hnone).
  simpl in Hnone.
  assert (Hstored : canvasEdges d !! k = Some e').
  { assert (Hin : (k, e') ∈ by_source id d ++ by_target id d).
    { rewrite Hl. apply elem_of_app. right. by left. }
    apply elem_of_app in Hin as [Hin|Hin].
    - by apply elem_of_by_source in Hin as [? _].
    - by apply elem_of_by_target in Hin as [? _]. }
  pose proof (cascade_loop_ok _ _ _ Hpre)
    as (_ & _ & Hnodes & Hgone & Hkept).
  assert (Hagain : k ∈ pre.*1).
  { destruct (decide (k ∈ pre.*1)) as [Hin|Hout]; [done|].
    rewrite Hkept in Hnone by done. congruence. }
  (* the stopping point lies in the by-target part *)
  assert (Hsplit : (forall x, x ∈ by_source id d -> x ∈ pre)
                   /\ (k, e') ∈ by_target id d
                   /\ k ∈ (by_source id d).*1).
  { apply app_eq_app in Hl as [l [[Hsrcl Htl]|[Hprel Htl]]].
    - destruct l as [|x l].
      + rewrite app_nil_r in Hsrcl. simpl in Htl.
        split_and!.
        * intros x Hx. by rewrite <- Hsrcl.
        * rewrite <- Htl. by left.
        * by rewrite Hsrcl.
      + exfalso. injection Htl as <- _.
        pose proof (by_source_NoDup id d) as Hnd.
        rewrite Hsrcl, fmap_app, fmap_cons in Hnd.
        apply NoDup_app in Hnd as (_ & Hdisj & _).
        apply (Hdisj k Hagain). by left.
    - split_and!.
      + intros x Hx. rewrite Hprel. apply elem_of_app. by left.
      + rewrite Htl. apply elem_of_app. right. by left.
      + rewrite Hprel, fmap_app in Hagain.
        apply elem_of_app in Hagain as [Hin|Hin]; [done|].
        exfalso.
        pose proof (by_target_NoDup id d) as Hnd.
        rewrite Htl, fmap_app, fmap_cons in Hnd.
        apply NoDup_app in Hnd as (_ & Hdisj & _).
        apply (Hdisj k Hin). by left. }
  destruct Hsplit as (Hprefix & Hktgt & Hksrc).
  exists d1, pre, (k, e'), post. simpl.
  split_and!; try done.
  - unfold deleteNode_handler, bind, gets. by rewrite Hthrow.
  - apply list_elem_of_fmap in Hksrc as ([k' e''] & Hk & Hin).
    simpl in Hk. subst k'.
    apply elem_of_by_source in Hin as [Hlook Hsrc'].
    congruence.
  - by apply elem_of_by_target in Hktgt as [_ ?].
  - by rewrite delete_edge_eq, Hnone.
  - apply Hgone. apply (list_elem_of_fmap_2 fst) in Hsrc.
    apply list_elem_of_fmap in Hsrc as (x & Hx & Hin).
    apply list_elem_of_fmap. exists x. split; [done|].
    by apply Hprefix.
Qed.

Lemma deleteNode_self_loop_deleted_twice_witness :
  (exists d1,
      deleteNode_handler 0 self_loop = (Throw (not_found "Delete"), d1)
      /\ canvasEdges d1 !! 1 = None
      /\ canvasNodes d1 = canvasNodes self_loop)
  /\ deleteNode 0 self_loop = (Throw (not_found "Delete"), self_loop).
Proof.
  destruct (deleteNode_self_loop_deleted_twice 0 1
              {| edge_source := 0; edge_target := 0;
                 edge_label := None; edge_createdAt := 2 |} self_loop
              eq_refl eq_refl eq_refl)
    as (_ & _ & (d1 & pre & again & post & Hrun & _ & _ & _ & _ & _ & _
                 & _ & _ & Hgone & Hnodes) & Hroll).
  split; [|exact Hroll]. by exists d1.
Defined.

(** C2, as stated, fails: [createEdge] checks nothing, and an edge from a
    node to itself is inserted like any other. *)
Lemma createEdge_self_loop_counterexample :
  exists d',
    createEdge 2 0 0 None one_note = (Ok 1, d')
    /\ canvasEdges d' !! 1
       = Some {| edge_source := 0; edge_target := 0;
                 edge_label := None; edge_createdAt := 2 |}.
Proof. eexists. split; vm_compute; reflexivity. Qed.

(** C2 (amended): for every source, target (equal or not) and label,
    [createEdge] succeeds: it returns a fresh id under which the edge is
    stored, and changes nothing else.  A second call with the same pair
    succeeds too and stores a second edge under another id. *)
Theorem createEdge_always_inserts (now now' : Z) (source target : nat)
    (label : option string) (d : db) :
  let e := {| edge_source := source; edge_target := target;
              edge_label := label; edge_createdAt := now |} in
  let e' := {| edge_source := source; edge_target := target;
               edge_label := label; edge_createdAt := now' |} in
  exists d' d'',
    createEdge now source target label d = (Ok (next_id d), d')
    /\ canvasEdges d' = <[next_id d := e]> (canvasEdges d)
    /\ canvasNodes d' = canvasNodes d
    /\ next_id d' = S (next_id d)
    /\ createEdge now' source target label d' = (Ok (S (next_id d)), d'')
    /\ canvasEdges d'' !! next_id d = Some e
    /\ canvasEdges d'' !! S (next_id d) = Some e'.
Proof.
  cbn zeta. eexists _, _. split_and!; try reflexivity.
  - simpl. rewrite lookup_insert_ne by lia. apply lookup_insert_eq.
  - simpl. apply lookup_insert_eq.
Qed.

Lemma patch_node_eq (id : nat) (f : canvasNode -> canvasNode) (d : db) :
  patch_node id f d
  = match canvasNodes d !! id with
    | Some n => (Ok tt, set_nodes (insert id (f n)) d)
    | None => (Throw (not_found "Update"), d)
    end.
Proof. reflexivity. Qed.

Lemma updateNode_present (now : Z) (args : updateNodeArgs) (d : db)
    (n : canvasNode) :
  canvasNodes d !! un_id args = Some n ->
  updateNode now args d
  = (Ok tt, set_nodes (insert (un_id args) (apply_updates now args n)) d).
Proof.
  intros Hn. unfold updateNode, transaction.
  by rewrite patch_node_eq, Hn.
Qed.

(** C4, as stated, fails: [updateNode] writes the fields it is given and
    computes nothing.  A content write that does not carry the links leaves
    the stored links as they were. *)
Lemma updateNode_stale_links_counterexample :
  exists d' n',
    updateNode 9 (content_only 0 "see [[Pear]]") one_note = (Ok tt, d')
    /\ canvasNodes d' !! 0 = Some n'
    /\ node_content n' = "see [[Pear]]"
    /\ extractWikiLinksFromContent (node_content n') = ["pear"]
    /\ node_outgoingLinks n' = None.
Proof. eexists _, _. split_and!; vm_compute; reflexivity. Qed.

(** C4 (amended): on an existing node, [updateNode] stores exactly the
    fields it is given and the new [updatedAt]: each of content, position,
    size and [outgoingLinks] becomes the value the caller sent, or stays as
    it was when the caller sent none, and every other field of the node,
    every other node and every edge stay as they were.  Nothing is
    computed from the content.  The link list is computed by the caller:
    after the editor's [handleUpdate] the node holds the new content and
    [extractWikiLinks] of it, and its position and size are as before. *)
Theorem updateNode_links_from_caller (now : Z) (args : updateNodeArgs)
    (d : db) (n : canvasNode) :
  canvasNodes d !! un_id args = Some n ->
  (exists d' n',
      updateNode now args d = (Ok tt, d')
      /\ canvasNodes d' !! un_id args = Some n'
      /\ node_content n' = default (node_content n) (un_content args)
      /\ node_updatedAt n' = now
      /\ node_outgoingLinks n'
         = match un_outgoingLinks args with
           | Some links => Some links
           | None => node_outgoingLinks n
           end
      /\ node_x n' = default (node_x n) (un_x args)
      /\ node_y n' = default (node_y n) (un_y args)
      /\ node_width n' = default (node_width n) (un_width args)
      /\ node_height n' = default (node_height n) (un_height args)
      /\ node_userId n' = node_userId n
      /\ node_type_of n' = node_type_of n
      /\ node_messageId n' = node_messageId n
      /\ node_conversationId n' = node_conversationId n
      /\ node_sourceType n' = node_sourceType n
      /\ node_sourceId n' = node_sourceId n
      /\ node_sourceUrl n' = node_sourceUrl n
      /\ node_parentNodeId n' = node_parentNodeId n
      /\ node_embedding n' = node_embedding n
      /\ node_createdAt n' = node_createdAt n
      /\ (forall k, k <> un_id args ->
                    canvasNodes d' !! k = canvasNodes d !! k)
      /\ canvasEdges d' = canvasEdges d)
  /\ (forall content, exists d' n',
        handleUpdate now (un_id args) content d = (Ok tt, d')
        /\ canvasNodes d' !! un_id args = Some n'
        /\ node_content n' = content
        /\ node_outgoingLinks n' = Some (extractWikiLinks content)
        /\ node_x n' = node_x n /\ node_y n' = node_y n
        /\ node_width n' = node_width n
        /\ node_height n' = node_height n).
Proof.
  intros Hn. split.
  - eexists _, _. split; [by apply updateNode_present|].
    split; [simpl; apply lookup_insert_eq|].
    split_and!; try reflexivity.
    intros k Hk. simpl. by apply lookup_insert_ne.
  - intros content. eexists _, _.
    split; [unfold handleUpdate; by apply updateNode_present|].
    split; [simpl; apply lookup_insert_eq|].
    split_and!; reflexivity.
Qed.

Lemma updateNode_links_from_caller_witness :
  exists d' n',
    handleUpdate 9 0 "see [[Pear]]" one_note = (Ok tt, d')
    /\ canvasNodes d' !! 0 = Some n'
    /\ node_content n' = "see [[Pear]]"
    /\ node_outgoingLinks n' = Some (extractWikiLinks "see [[Pear]]").
Proof.
  destruct (canvasNodes one_note !! 0) as [n|] eqn:Hn;
    [|by vm_compute in Hn].
  destruct (proj2 (updateNode_links_from_caller 9
                     (content_only 0 "unused") one_note n Hn)
                  "see [[Pear]]")
    as (d' & n' & Hrun & Hlook & Hcontent & Hlinks & _).
  by exists d', n'.
Defined.

Lemma existsb_link (t : string) (links : list string) :
  existsb (fun link => String.eqb (toLowerCase link) t) links = true
  <-> exists link, link ∈ links /\ toLowerCase link = t.
Proof.
  rewrite existsb_exists. split.
  - intros (link & Hin & Heq). exists link.
    split; [by apply list_elem_of_In|]. by apply String.eqb_eq.
  - intros (link & Hin & Heq). exists link.
    split; [by apply list_elem_of_In|]. by apply String.eqb_eq.
Qed.

(** The filter of [getWikiLinkBacklinks] decides [mentions]. *)
Lemma links_to_mentions (title : string) (note : canvasNode) :
  links_to (toLowerCase title) note = true <-> mentions title note.
Proof.
  unfold links_to, mentions.
  rewrite orb_true_iff, includes_true, extractWikiLinksFromContent_elem.
  split.
  - intros [Hstored|Hscan].
    + left. destruct (node_outgoingLinks note) as [links|]; [|done].
      apply existsb_link in Hstored as (link & Hin & Heq).
      by exists links, link.
    + right. destruct Hscan as [H|H];
        apply list_elem_of_fmap in H as (cap & Heq & Hin);
        exists cap; split; auto.
  - intros [(links & link & Hl & Hin & Heq)|(cap & Hin & Heq)].
    + left. rewrite Hl. apply existsb_link. by exists link.
    + right. destruct Hin as [Hin|Hin]; [left|right];
        apply list_elem_of_fmap; exists cap; split; auto.
Qed.

(** C8, as stated, fails for the empty title: the query returns nothing
    at once, although a note can hold the empty string in its stored links
    and so refer to it. *)
Lemma getWikiLinkBacklinks_blank_counterexample :
  getWikiLinkBacklinks EmptyString blank_link = []
  /\ exists note,
       canvasNodes blank_link !! 0 = Some note
       /\ node_type_of note = TypeNote
       /\ mentions EmptyString note.
Proof.
  split; [reflexivity|].
  eexists. split_and!; [vm_compute; reflexivity | reflexivity |].
  left. exists [EmptyString], EmptyString. split_and!; try reflexivity.
  by left.
Qed.

(** C8 (amended): for the empty title [getWikiLinkBacklinks] returns the
    empty list.  For every non-empty title it returns exactly the stored
    notes that mention the title, case-insensitively, in their stored links
    or in a fresh scan of their content; no node id occurs twice, and every
    entry carries [extractNoteTitle] of its own content. *)
Theorem getWikiLinkBacklinks_exact (title : string) (d : db) :
  (title = EmptyString -> getWikiLinkBacklinks title d = [])
  /\ (title <> EmptyString ->
      NoDup (map bl_id (getWikiLinkBacklinks title d))
      /\ forall b,
           b ∈ getWikiLinkBacklinks title d
           <-> canvasNodes d !! bl_id b = Some (bl_note b)
               /\ node_type_of (bl_note b) = TypeNote
               /\ mentions title (bl_note b)
               /\ bl_title b = extractNoteTitle (node_content (bl_note b))).
Proof.
  split; [by intros ->|].
  intros Hne. unfold getWikiLinkBacklinks.
  destruct title as [|c title]; [done|]. cbn [is_empty].
  set (t := String c title).
  set (selected := filter _ (filter _ (collect_nodes d))).
  split.
  - rewrite map_map. simpl.
    change (NoDup (selected.*1)).
    eapply sublist_NoDup; [apply (NoDup_fst_map_to_list (canvasNodes d))|].
    apply fmap_sublist. subst selected.
    etrans; apply sublist_filter.
  - intros [id note ttl]. simpl. rewrite list_elem_of_fmap. split.
    + intros ([id' note'] & [= -> -> ->] & Hin). simpl.
      subst selected.
      apply list_elem_of_filter in Hin as [Hlinks Hin].
      apply list_elem_of_filter in Hin as [Hnote Hin].
      apply elem_of_map_to_list in Hin. simpl in *.
      split_and!; try done.
      * unfold is_note in Hnote. simpl in Hnote.
        by apply bool_decide_eq_true in Hnote.
      * by apply (proj1 (links_to_mentions t note')).
    + intros (Hlook & Htype & Hm & ->).
      exists (id, note). split; [done|]. subst selected.
      apply list_elem_of_filter. split.
      { by apply (proj2 (links_to_mentions t note)). }
      apply list_elem_of_filter. split.
      { unfold is_note. simpl. by apply bool_decide_eq_true. }
      by apply elem_of_map_to_list.
Qed.

Lemma getWikiLinkBacklinks_exact_witness :
  NoDup (map bl_id (getWikiLinkBacklinks "Apple" scenario_A)).
Proof.
  apply (proj2 (getWikiLinkBacklinks_exact "Apple" scenario_A)).
  discriminate.
Defined.

(** Scenario A of the specification. *)
Example getWikiLinkBacklinks_scenario_A :
  map bl_id (getWikiLinkBacklinks "Apple" scenario_A) = [1]
  /\ map bl_title (getWikiLinkBacklinks "Apple" scenario_A)
     = ["I like [[Apple]] pie"].
Proof. vm_compute. split; reflexivity. Qed.

End RepositoryFacts.

(* ===================================================================== *)
(** * Similarity linking and the concept loop                            *)
(* ===================================================================== *)

Section LinkingFacts.
Import Text Canvas VoiceNotes.
Variable E : env.

Lemma runMutation_eq {A} (h : Z -> M db A) (w : world) :
  runMutation E h w
  = (let '(r, d) := h (clock E (ticks w)) (store w) in
     (r, {| store := d; ticks := S (ticks w) |})).
Proof. reflexivity. Qed.

Lemma adds_links_refl (k nodeId : nat) (excluded : list nat) (d : db) :
  adds_links k nodeId excluded d d.
Proof.
  unfold adds_links. split_and!; try done; try lia.
  intros eid e He. by left.
Qed.

Lemma adds_links_weaken (k k' nodeId : nat) (excluded : list nat)
    (d d' : db) :
  k <= k' -> adds_links k nodeId excluded d d' ->
  adds_links k' nodeId excluded d d'.
Proof.
  intros Hk (Hn & Hv & Hid & Hsz & He).
  unfold adds_links. split_and!; try done; lia.
Qed.

(** One inserted edge, followed by a call that adds at most [k]. *)
Lemma adds_links_step (k nodeId : nat) (excluded : list nat)
    (e : canvasEdge) (d d' : db) :
  edge_source e = nodeId ->
  edge_target e <> nodeId ->
  edge_target e ∉ excluded ->
  adds_links k nodeId excluded
    (bump (set_edges (insert (next_id d) e) d)) d' ->
  adds_links (S k) nodeId excluded d d'.
Proof.
  intros Hs Ht Hx (Hn & Hv & Hid & Hsz & He). simpl in *.
  unfold adds_links. split_and!; try done; try lia.
  - rewrite map_size_insert in Hsz.
    destruct (canvasEdges d !! next_id d); simpl in Hsz; lia.
  - intros eid e' He'. apply He in He' as [Hold|Hnew].
    + destruct (decide (eid = next_id d)) as [->|Hne].
      * rewrite lookup_insert_eq in Hold. injection Hold as <-.
        right. split_and!; try done; lia.
      * rewrite lookup_insert_ne in Hold by done. by left.
    + right. destruct Hnew as (Hrange & Hrest). split; [lia|done].
Qed.

(** The linking loop never throws, and adds at most one edge per
    candidate. *)
Lemma link_related_effect (nodeId : nat) (createdNodeIds : list nat)
    (related : list (option relatedNode)) (w : world)
    (r : outcome unit) (w' : world) :
  link_related E nodeId createdNodeIds related w = (r, w') ->
  r = Ok tt
  /\ adds_links (length related) nodeId createdNodeIds
                (store w) (store w').
Proof.
  unfold link_related. revert w.
  induction related as [|cand related IH]; intros w.
  - intros [= <- <-]. split; [done|]. apply adds_links_refl.
  - rewrite for_each_cons.
    destruct cand as [rel|]; cycle 1.
    { intros H. apply IH in H as [-> H]. split; [done|].
      eapply adds_links_weaken; [|exact H]. simpl. lia. }
    destruct (linkable nodeId createdNodeIds (Some rel)) eqn:Hlink; cycle 1.
    { intros H. apply IH in H as [-> H]. split; [done|].
      eapply adds_links_weaken; [|exact H]. simpl. lia. }
    intros H. apply IH in H as [-> H]. split; [done|].
    simpl in Hlink. apply andb_true_iff in Hlink as [Hself Hex].
    apply negb_true_iff, bool_decide_eq_false in Hself.
    apply negb_true_iff, bool_decide_eq_false in Hex.
    simpl. eapply adds_links_step; [| | |exact H]; done.
Qed.

(** The effect of one similarity-linking call, whatever its outcome. *)
Lemma link_by_similarity_effect (limit nodeId : nat)
    (createdNodeIds : list nat) (query : string) (w : world)
    (r : outcome unit) (w' : world) :
  link_by_similarity E limit nodeId createdNodeIds query w = (r, w') ->
  adds_links limit nodeId createdNodeIds (store w) (store w').
Proof.
  unfold link_by_similarity, findRelated, bind, gets, await, ret.
  destruct (nearest E (canvasNodes (store w)) query) as [ranked|err].
  - intros H. apply link_related_effect in H as [_ H].
    eapply adds_links_weaken; [|exact H].
    rewrite length_take. lia.
  - intros [= <- <-]. apply adds_links_refl.
Qed.

(** C7: one similarity-linking call with neighbour limit [limit] changes
    no node, allocates at most [limit] documents and grows the edge table by
    at most [limit]; every edge it adds starts at [nodeId] and ends at
    another node, so none is a self-loop. *)
Theorem link_by_similarity_bounds (limit nodeId : nat)
    (createdNodeIds : list nat) (query : string) (w : world)
    (r : outcome unit) (w' : world) :
  link_by_similarity E limit nodeId createdNodeIds query w = (r, w') ->
  canvasNodes (store w') = canvasNodes (store w)
  /\ next_id (store w') - next_id (store w) <= limit
  /\ size (canvasEdges (store w')) <= size (canvasEdges (store w)) + limit
  /\ forall eid e,
       canvasEdges (store w') !! eid = Some e ->
       canvasEdges (store w) !! eid = Some e
       \/ (next_id (store w) <= eid < next_id (store w')
           /\ edge_source e = nodeId
           /\ edge_source e <> edge_target e).
Proof.
  intros H. apply link_by_similarity_effect in H
    as (Hn & _ & Hid & Hsz & He).
  split_and!; try done; try lia.
  intros eid e Hl. apply He in Hl as [Hold|(Hr & Hs & Ht & _)].
  - by left.
  - right. split; [done|]. split; [done|].
    intros Heq. apply Ht. by rewrite <- Heq.
Qed.

End LinkingFacts.

Import Text Canvas VoiceNotes.

Lemma link_by_similarity_bounds_witness :
  let w' := (link_by_similarity crowded_env 2 0 [0] "q" scenario_B_world).2 in
  size (canvasEdges (store w')) <= size (canvasEdges scenario_B) + 2.
Proof.
  cbn zeta.
  refine (proj1 (proj2 (proj2 (link_by_similarity_bounds crowded_env 2 0 [0]
    "q" scenario_B_world
    (link_by_similarity crowded_env 2 0 [0] "q" scenario_B_world).1
    (link_by_similarity crowded_env 2 0 [0] "q" scenario_B_world).2 _)))).
  vm_compute. reflexivity.
Defined.

(* ===================================================================== *)
(** * The pipeline: failure of the transcription call                    *)
(* ===================================================================== *)

Section PipelineFacts.
Variable E : env.

Lemma updateStatus_ok (now : Z) (args : updateStatusArgs) (d : db)
    (v : voiceNote) :
  identity E = Some (voice_userId v) ->
  voiceNotes d !! us_id args = Some v ->
  updateStatus E now args d
  = (Ok tt, set_voiceNotes (insert (us_id args) (apply_status now args v)) d).
Proof.
  intros Hid Hv.
  unfold updateStatus, transaction, bind, getAuthenticatedUser.
  rewrite Hid. unfold ret, get_voiceNote, gets. rewrite Hv.
  rewrite bool_decide_eq_true_2 by done.
  unfold patch_voiceNote. by rewrite Hv.
Qed.

Lemma get_ok (id : nat) (d : db) (v : voiceNote) :
  identity E = Some (voice_userId v) ->
  voiceNotes d !! id = Some v ->
  get E id d = (Ok (Some v), d).
Proof.
  intros Hid Hv. unfold get, bind, getAuthenticatedUser.
  rewrite Hid. unfold ret, get_voiceNote, gets. rewrite Hv.
  by rewrite bool_decide_eq_true_2.
Qed.

(** A failing transcription call makes the first stage throw, and the
    stage writes nothing. *)
Lemma transcription_stage_fails (v : voiceNote) (err : thrown)
    (subject : string) (w : world) :
  identity E = Some subject ->
  transcription_fails E v err ->
  transcription_stage E v w = (Throw err, w).
Proof.
  intros Hid Hfail. destruct w as [d t].
  unfold transcription_stage, runQuery, run, getAudioUrl, bind,
    getAuthenticatedUser, await, throw, ret.
  rewrite Hid. simpl.
  destruct Hfail as [Hurl
                    |url error Hurl Hne Hfetch
                    |url blob txt Hurl Hne Hfetch Htr
                    |url blob error Hurl Hne Hfetch Htr].
  - by rewrite Hurl.
  - by rewrite Hurl, Hne, Hfetch.
  - by rewrite Hurl, Hne, Hfetch, Htr.
  - by rewrite Hurl, Hne, Hfetch, Htr.
Qed.

(** The message of a failure of the first step is empty only when a call
    was rejected with an [Error] that carries the empty message. *)
Lemma transcription_fails_message (v : voiceNote) (err : thrown) :
  transcription_fails E v err ->
  error_message err = EmptyString ->
  err = JsError EmptyString
  /\ ((exists url, fetch_audio E url = Throw (JsError EmptyString))
      \/ (exists audioBlob,
             transcribe E audioBlob = Throw (JsError EmptyString))).
Proof.
  intros [Hurl
         |url error Hurl Hne Hfetch
         |url blob txt Hurl Hne Hfetch Htr
         |url blob error Hurl Hne Hfetch Htr] Hmsg.
  - discriminate.
  - destruct error as [m|]; [|discriminate]. simpl in Hmsg. subst m.
    split; [done|]. left. by exists url.
  - discriminate.
  - destruct error as [m|]; [|discriminate]. simpl in Hmsg. subst m.
    split; [done|]. right. by exists blob.
Qed.

(** C5 (amended): when the first step fails (no audio URL, rejected
    audio fetch, failure status of the transcription endpoint, rejected
    transcription call), [process] rethrows the failure and leaves the
    voice note in status [Error] with the failure's message as
    [errorMessage]; no node, no edge and no other document is created, and
    no transcript is stored.  The message is empty only when a collaborator
    rejected the call with an [Error] whose message is empty. *)
Theorem process_transcription_failure (voiceNoteId : nat) (w : world)
    (v : voiceNote) (err : thrown) :
  identity E = Some (voice_userId v) ->
  voiceNotes (store w) !! voiceNoteId = Some v ->
  transcription_fails E v err ->
  exists w' v',
    process E voiceNoteId w = (Throw err, w')
    /\ voiceNotes (store w') !! voiceNoteId = Some v'
    /\ voice_status_of v' = Error
    /\ voice_errorMessage v' = Some (error_message err)
    /\ (error_message err = EmptyString ->
        err = JsError EmptyString
        /\ ((exists url, fetch_audio E url = Throw (JsError EmptyString))
            \/ (exists audioBlob,
                   transcribe E audioBlob = Throw (JsError EmptyString))))
    /\ voice_transcription v' = voice_transcription v
    /\ canvasNodes (store w') = canvasNodes (store w)
    /\ canvasEdges (store w') = canvasEdges (store w)
    /\ next_id (store w') = next_id (store w).
Proof.
  intros Hid Hv Hfail.
  unfold process, runQuery, run. unfold bind at 1.
  rewrite (get_ok _ _ _ Hid Hv).
  unfold bind at 1. rewrite runMutation_eq.
  rewrite (updateStatus_ok _ _ _ v Hid) by done.
  set (v1 := apply_status _ _ v).
  set (w1 := {| store := _; ticks := _ |}).
  unfold try_catch, process_try. unfold bind at 1.
  rewrite (transcription_stage_fails v err _ w1 Hid Hfail).
  unfold process_catch. unfold bind at 1. rewrite runMutation_eq.
  assert (Hv1 : voiceNotes (store w1) !! voiceNoteId = Some v1).
  { subst w1. simpl. apply lookup_insert_eq. }
  rewrite (updateStatus_ok _ _ _ v1 Hid) by done.
  eexists _, _. split_and!.
  - reflexivity.
  - simpl. apply lookup_insert_eq.
  - reflexivity.
  - reflexivity.
  - by apply (transcription_fails_message v).
  - reflexivity.
  - reflexivity.
  - reflexivity.
  - reflexivity.
Qed.

End PipelineFacts.

(** C5, as stated, fails: a transcription call that is rejected with an
    [Error] without message leaves the voice note in status [Error] with the
    empty string as its [errorMessage]. *)
Lemma process_empty_message_counterexample :
  exists w' v',
    process silent_env 0 batch_world = (Throw (JsError EmptyString), w')
    /\ voiceNotes (store w') !! 0 = Some v'
    /\ voice_status_of v' = Error
    /\ voice_errorMessage v' = Some EmptyString
    /\ canvasNodes (store w') = ∅.
Proof. eexists _, _. split_and!; vm_compute; reflexivity. Qed.

Lemma process_transcription_failure_witness :
  exists w' v',
    process failing_env 0 batch_world
    = (Throw (JsError "Transcription failed: quota exceeded"), w')
    /\ voiceNotes (store w') !! 0 = Some v'
    /\ voice_status_of v' = Error
    /\ voice_errorMessage v' = Some "Transcription failed: quota exceeded"
    /\ canvasNodes (store w') = ∅.
Proof.
  destruct (process_transcription_failure failing_env 0 batch_world
              uploaded_note
              (JsError "Transcription failed: quota exceeded"))
    as (w' & v' & Hrun & Hv & Hst & Hmsg & _ & _ & Hnodes & _).
  - reflexivity.
  - reflexivity.
  - exact (fails_not_ok failing_env uploaded_note "https://audio" "bytes"
             "quota exceeded" eq_refl eq_refl eq_refl eq_refl).
  - exists w', v'. split_and!; try done.
Defined.

(** Scenario E of the specification, evaluated. *)
Example process_scenario_E :
  (process failing_env 0 batch_world).1
  = Throw (JsError "Transcription failed: quota exceeded")
  /\ canvasNodes (store (process failing_env 0 batch_world).2) = ∅.
Proof. vm_compute. split; reflexivity. Qed.

(* ===================================================================== *)
(** * Further properties of the repository                               *)
(* ===================================================================== *)

Section AllocatorFacts.
Import Text Regex Parser Canvas NoteEditor.

Lemma allocated_empty : allocated empty_db.
Proof.
  unfold allocated. simpl. split_and!; intros k [x Hx];
    by rewrite lookup_empty in Hx.
Qed.

Lemma allocated_insert_node (n : canvasNode) (d : db) :
  allocated d ->
  allocated (bump (set_nodes (insert (next_id d) n) d)).
Proof.
  intros (Hn & He & Hv). unfold allocated. simpl. split_and!.
  - intros k Hk. destruct (decide (k = next_id d)) as [->|Hne]; [lia|].
    rewrite lookup_insert_ne in Hk by done. apply Hn in Hk. lia.
  - intros k Hk. apply He in Hk. lia.
  - intros k Hk. apply Hv in Hk. lia.
Qed.

Lemma allocated_insert_edge (e : canvasEdge) (d : db) :
  allocated d ->
  allocated (bump (set_edges (insert (next_id d) e) d)).
Proof.
  intros (Hn & He & Hv). unfold allocated. simpl. split_and!.
  - intros k Hk. apply Hn in Hk. lia.
  - intros k Hk. destruct (decide (k = next_id d)) as [->|Hne]; [lia|].
    rewrite lookup_insert_ne in Hk by done. apply He in Hk. lia.
  - intros k Hk. apply Hv in Hk. lia.
Qed.

Lemma allocated_scenario_B : allocated scenario_B.
Proof.
  unfold scenario_B, after.
  repeat first [apply allocated_insert_edge | apply allocated_insert_node].
  apply allocated_empty.
Defined.

End AllocatorFacts.

Section RepositoryMore.
Import Text Regex Parser Canvas NoteEditor.

(** X2: The store rejects the nodes that [canvas.ts] writes.  The object
    literals of [createNode] and [createDailyNote] have no [userId], which
    the table requires, so both mutations throw the store's validation
    error and leave the store as it was.  Hence no mutation of
    [canvas.ts] adds a node: after any of them, every stored node id was
    stored before. *)
Theorem canvas_mutations_add_no_node (d : db) :
  (forall now args,
      createNode now args d
      = (Throw (schema_violation "canvasNodes" "userId"), d))
  /\ (forall now dayName monthDay dateString,
        createDailyNote now dayName monthDay dateString d
        = (Throw (schema_violation "canvasNodes" "userId"), d))
  /\ (forall now args k,
        is_Some (canvasNodes (updateNode now args d).2 !! k) ->
        is_Some (canvasNodes d !! k))
  /\ (forall id v k,
        is_Some (canvasNodes (updateNodeEmbedding id v d).2 !! k) ->
        is_Some (canvasNodes d !! k))
  /\ (forall id k,
        is_Some (canvasNodes (deleteNode id d).2 !! k) ->
        is_Some (canvasNodes d !! k))
  /\ (forall now source target label,
        canvasNodes (createEdge now source target label d).2
        = canvasNodes d)
  /\ (forall id, canvasNodes (deleteEdge id d).2 = canvasNodes d).
Proof.
  assert (Hpatch : forall id f k,
             is_Some (canvasNodes (transaction (patch_node id f) d).2 !! k)
             -> is_Some (canvasNodes d !! k)).
  { intros id f k. unfold transaction. rewrite patch_node_eq.
    destruct (canvasNodes d !! id) as [n|] eqn:Hn; simpl; [|done].
    destruct (decide (k = id)) as [->|Hne].
    - intros _. by rewrite Hn.
    - by rewrite lookup_insert_ne. }
  split_and!.
  - reflexivity.
  - reflexivity.
  - intros now args k. apply Hpatch.
  - intros id v k. apply Hpatch.
  - intros id k. unfold deleteNode, transaction.
    destruct (deleteNode_handler id d) as [[[]|err] d1] eqn:Hh; [|done].
    revert Hh. unfold deleteNode_handler, bind, gets.
    destruct (for_each _ _ d) as [[[]|err] d2] eqn:Hloop; [|congruence].
    apply cascade_loop_ok in Hloop as (_ & _ & Hnodes & _).
    unfold delete_node. destruct (canvasNodes d2 !! id); [|congruence].
    intros [= <-]. simpl. rewrite Hnodes.
    destruct (decide (k = id)) as [->|Hne].
    + rewrite lookup_delete_eq. by intros [? ?].
    + by rewrite lookup_delete_ne.
  - reflexivity.
  - intros id. unfold deleteEdge, transaction. rewrite delete_edge_eq.
    by destruct (canvasEdges d !! id).
Qed.

(** X3: [updateNode] on an id without a document throws the store's not-found
    error and leaves the store untouched.  On a stored node it changes that
    node only: every other node, every edge and the allocator are as
    before, and the node keeps its type, its source fields, its embedding
    and its creation time while [updatedAt] becomes the time of the call. *)
Theorem updateNode_frame (now : Z) (args : updateNodeArgs) (d : db) :
  (canvasNodes d !! un_id args = None ->
   updateNode now args d = (Throw (not_found "Update"), d))
  /\ (forall n,
        canvasNodes d !! un_id args = Some n ->
        exists d' n',
          updateNode now args d = (Ok tt, d')
          /\ canvasNodes d' !! un_id args = Some n'
          /\ (forall k, k <> un_id args ->
                        canvasNodes d' !! k = canvasNodes d !! k)
          /\ canvasEdges d' = canvasEdges d
          /\ voiceNotes d' = voiceNotes d
          /\ next_id d' = next_id d
          /\ node_type_of n' = node_type_of n
          /\ node_sourceType n' = node_sourceType n
          /\ node_sourceId n' = node_sourceId n
          /\ node_embedding n' = node_embedding n
          /\ node_createdAt n' = node_createdAt n
          /\ node_updatedAt n' = now).
Proof.
  split.
  - intros Hn. unfold updateNode, transaction.
    by rewrite patch_node_eq, Hn.
  - intros n Hn. eexists _, _.
    split; [by apply updateNode_present|].
    split; [simpl; apply lookup_insert_eq|].
    split_and!; try reflexivity.
    intros k Hk. simpl. by rewrite lookup_insert_ne.
Qed.

Lemma updateNode_frame_witness :
  updateNode 9 (content_only 5 "lost") one_note
  = (Throw (not_found "Update"), one_note).
Proof.
  apply (proj1 (updateNode_frame 9 (content_only 5 "lost") one_note)).
  reflexivity.
Defined.

(** X4: [deleteEdge] removes the addressed edge and nothing else; on an id
    without a document it throws the not-found error and leaves the store
    untouched. *)
Theorem deleteEdge_exact (id : nat) (d : db) :
  (canvasEdges d !! id = None ->
   deleteEdge id d = (Throw (not_found "Delete"), d))
  /\ (is_Some (canvasEdges d !! id) ->
      exists d',
        deleteEdge id d = (Ok tt, d')
        /\ canvasEdges d' !! id = None
        /\ (forall k, k <> id -> canvasEdges d' !! k = canvasEdges d !! k)
        /\ canvasNodes d' = canvasNodes d
        /\ next_id d' = next_id d).
Proof.
  unfold deleteEdge, transaction. rewrite delete_edge_eq. split.
  - by intros ->.
  - intros [e He]. rewrite He. eexists.
    split; [reflexivity|].
    split; [simpl; apply lookup_delete_eq|].
    split_and!; try reflexivity.
    intros k Hk. simpl. by rewrite lookup_delete_ne.
Qed.

Lemma deleteEdge_exact_witness :
  exists d',
    deleteEdge 3 scenario_B = (Ok tt, d')
    /\ canvasEdges d' !! 3 = None.
Proof.
  destruct (proj2 (deleteEdge_exact 3 scenario_B)) as (d' & H1 & H2 & _).
  - vm_compute. by eexists.
  - by exists d'.
Defined.

(** The loop completes when the listed ids are stored and pairwise
    distinct. *)
Lemma cascade_loop_succeeds (l : list (nat * canvasEdge)) (d : db) :
  NoDup l.*1 ->
  (forall k, k ∈ l.*1 -> is_Some (canvasEdges d !! k)) ->
  exists d', for_each l (fun edge => delete_edge edge.1) d = (Ok tt, d').
Proof.
  revert d. induction l as [|a l IH]; intros d Hnd Hall.
  - by eexists.
  - rewrite fmap_cons in Hnd, Hall. apply NoDup_cons in Hnd as [Ha Hnd].
    rewrite for_each_cons, delete_edge_eq.
    destruct (Hall a.1) as [e He]; [by left|]. rewrite He.
    apply IH; [done|]. intros k Hk. simpl.
    rewrite lookup_delete_ne by (intros Heq; apply Ha; by rewrite Heq).
    apply Hall. by right.
Qed.

(** X5: When [deleteNode] succeeds and when it fails: it succeeds exactly
    when the node is stored and no stored edge leads from the node to
    itself; in every other case it throws the store's not-found error and
    the store is left as it was, edges included. *)
Theorem deleteNode_succeeds_iff (id : nat) (d : db) :
  let deletable :=
    is_Some (canvasNodes d !! id)
    /\ forall eid e, canvasEdges d !! eid = Some e ->
                     ~ (edge_source e = id /\ edge_target e = id) in
  ((exists d', deleteNode id d = (Ok tt, d')) <-> deletable)
  /\ (~ deletable -> deleteNode id d = (Throw (not_found "Delete"), d)).
Proof.
  cbn zeta.
  set (l := by_source id d ++ by_target id d).
  assert (Hcases :
    (exists d', deleteNode id d = (Ok tt, d')
                /\ is_Some (canvasNodes d !! id) /\ NoDup l.*1)
    \/ deleteNode id d = (Throw (not_found "Delete"), d)
       /\ (canvasNodes d !! id = None \/ ~ NoDup l.*1)).
  { unfold deleteNode, transaction, deleteNode_handler, bind, gets.
    fold l.
    destruct (cascade_loop_outcome l d) as [[d1 Hloop]|[d1 Hloop]];
      rewrite Hloop.
    - pose proof (cascade_loop_ok _ _ _ Hloop) as (Hnd & _ & Hnodes & _).
      unfold delete_node. rewrite Hnodes.
      destruct (canvasNodes d !! id) as [n|] eqn:Hn.
      + left. eexists. split_and!; [done|by eexists|done].
      + right. split; [done|by left].
    - right. split; [done|]. right. intros Hnd.
      destruct (cascade_loop_succeeds l d Hnd) as [d2 Hok].
      + intros k ([k' e] & -> & Hin)%list_elem_of_fmap. simpl.
        subst l. apply elem_of_app in Hin as [Hin|Hin].
        * apply elem_of_by_source in Hin as [-> _]. by eexists.
        * apply elem_of_by_target in Hin as [-> _]. by eexists.
      + congruence. }
  assert (Hloops : NoDup l.*1 <->
            forall eid e, canvasEdges d !! eid = Some e ->
                          ~ (edge_source e = id /\ edge_target e = id)).
  { subst l. rewrite fmap_app, NoDup_app. split.
    - intros (_ & Hdisj & _) eid e He [Hs Ht].
      apply (Hdisj eid).
      + apply (list_elem_of_fmap_2 fst _ (eid, e)).
        by apply elem_of_by_source.
      + apply (list_elem_of_fmap_2 fst _ (eid, e)).
        by apply elem_of_by_target.
    - intros Hno. split_and!;
        [apply by_source_NoDup| |apply by_target_NoDup].
      intros k ([k1 e1] & -> & H1)%list_elem_of_fmap
               ([k2 e2] & Hk & H2)%list_elem_of_fmap.
      simpl in Hk. subst k2.
      apply elem_of_by_source in H1 as [He1 Hs].
      apply elem_of_by_target in H2 as [He2 Ht].
      simpl in *. rewrite He1 in He2. injection He2 as <-.
      by apply (Hno k1 e1). }
  split; [split|].
  - intros [d' Hok]. destruct Hcases as [(d2 & _ & Hn & Hnd)|[Hthrow _]].
    + split; [done|]. by apply Hloops.
    + congruence.
  - intros [Hn Hno]. destruct Hcases as [(d2 & Hok & _)|[_ [Hnone|Hdup]]].
    + by exists d2.
    + rewrite Hnone in Hn. by destruct Hn.
    + exfalso. apply Hdup. by apply Hloops.
  - intros Hnot. destruct Hcases as [(d2 & _ & Hn & Hnd)|[Hthrow _]].
    + exfalso. apply Hnot. split; [done|]. by apply Hloops.
    + done.
Qed.

Lemma deleteNode_succeeds_iff_witness :
  deleteNode 5 scenario_B = (Throw (not_found "Delete"), scenario_B).
Proof.
  apply (proj2 (deleteNode_succeeds_iff 5 scenario_B)).
  intros [[n Hn] _]. vm_compute in Hn. discriminate.
Defined.

End RepositoryMore.


Section QueryFacts.
Import Text Regex Parser Canvas NoteEditor.

Lemma getBacklinks_elem (nodeId : nat) (d : db) (entry : backlinkEntry) :
  entry ∈ getBacklinks nodeId d
  <-> exists eid e,
        canvasEdges d !! eid = Some e
        /\ edge_target e = nodeId
        /\ entry_id entry = edge_source e
        /\ canvasNodes d !! edge_source e = Some (entry_node entry)
        /\ entry_edgeLabel entry = edge_label e.
Proof.
  unfold getBacklinks. destruct entry as [sid node lbl].
  rewrite list_elem_of_omap. split.
  - intros (o & Ho & ->).
    apply list_elem_of_fmap in Ho as ([eid e] & Heq & Hin).
    apply elem_of_by_target in Hin as [He Ht]. simpl in Heq.
    destruct (canvasNodes d !! edge_source e) as [n|] eqn:Hn;
      [|discriminate].
    injection Heq as -> -> ->. by exists eid, e.
  - intros (eid & e & He & Ht & Hid & Hn & Hl). simpl in *.
    eexists. split; [|reflexivity].
    apply list_elem_of_fmap. exists (eid, e). split.
    + simpl. rewrite Hn. by rewrite Hid, Hl.
    + by apply elem_of_by_target.
Qed.

Lemma getBacklinks_length (nodeId : nat) (d : db) :
  length (getBacklinks nodeId d)
  = length (filter (fun p => is_Some (canvasNodes d !! edge_source p.2))
                   (by_target nodeId d)).
Proof.
  unfold getBacklinks.
  induction (by_target nodeId d) as [|a l IH]; [done|].
  rewrite filter_cons.
  destruct (decide (is_Some (canvasNodes d !! edge_source a.2)))
    as [[n Hn]|Hno].
  - cbn [map]. rewrite Hn. cbn [omap list_omap length]. by rewrite IH.
  - cbn [map].
    destruct (canvasNodes d !! edge_source a.2) as [n|] eqn:Hn;
      [exfalso; apply Hno; by eexists|].
    cbn [omap list_omap]. apply IH.
Qed.

(** X6: [getBacklinks] lists exactly the stored edges that end at the node
    and whose source still has a document: one entry per such edge, made of
    the source node and the edge's label.  Edges whose source is gone are
    dropped, so the result is never longer than the list of incoming
    edges. *)
Theorem getBacklinks_exact (nodeId : nat) (d : db) :
  (forall entry,
      entry ∈ getBacklinks nodeId d
      <-> exists eid e,
            canvasEdges d !! eid = Some e
            /\ edge_target e = nodeId
            /\ entry_id entry = edge_source e
            /\ canvasNodes d !! edge_source e = Some (entry_node entry)
            /\ entry_edgeLabel entry = edge_label e)
  /\ length (getBacklinks nodeId d)
     = length (filter (fun p => is_Some (canvasNodes d !! edge_source p.2))
                      (by_target nodeId d))
  /\ length (getBacklinks nodeId d) <= length (by_target nodeId d).
Proof.
  split_and!.
  - apply getBacklinks_elem.
  - apply getBacklinks_length.
  - rewrite getBacklinks_length. apply length_filter.
Qed.

(** X7: An edge just created shows up as a backlink of its target: in a
    store whose ids are allocated and that holds the source node,
    [getBacklinks target] after [createEdge source target label] has an
    entry with that source node and that label, and is longer by one than
    before. *)
Theorem createEdge_then_getBacklinks (now : Z) (source target : nat)
    (label : option string) (d : db) (n : canvasNode) :
  allocated d ->
  canvasNodes d !! source = Some n ->
  exists id d',
    createEdge now source target label d = (Ok id, d')
    /\ {| entry_id := source; entry_node := n; entry_edgeLabel := label |}
       ∈ getBacklinks target d'
    /\ length (getBacklinks target d')
       = S (length (getBacklinks target d)).
Proof.
  intros (_ & He & _) Hn. eexists _, _. split; [reflexivity|].
  set (e := {| edge_source := source; edge_target := target;
               edge_label := label; edge_createdAt := now |}).
  set (d' := bump (set_edges (insert (next_id d) e) d)).
  assert (Hfresh : canvasEdges d !! next_id d = None).
  { destruct (canvasEdges d !! next_id d) eqn:Hk; [|done].
    assert (next_id d < next_id d) by (apply He; by eexists). lia. }
  split.
  - apply getBacklinks_elem. exists (next_id d), e.
    split_and!; try done. simpl. apply lookup_insert_eq.
  - rewrite !getBacklinks_length. unfold by_target, collect_edges.
    subst d'. simpl.
    rewrite (map_to_list_insert (canvasEdges d) (next_id d) e Hfresh).
    rewrite filter_cons, decide_True by done.
    rewrite filter_cons, decide_True by (simpl; by eexists).
    done.
Qed.

End QueryFacts.

(* ===================================================================== *)
(** * Titles of generated contents                                       *)
(* ===================================================================== *)

Section TitleRoundTrips.
Import Text Regex Parser Canvas NoteEditor.

Ltac app_cons :=
  repeat match goal with
         | |- context [String ?c ?a +:+ ?b] =>
             change (String c a +:+ b) with (String c (a +:+ b))
         end.

Lemma append_nil_r (a : string) : a +:+ EmptyString = a.
Proof. induction a as [|c a IH]; [done|]. app_cons. by rewrite IH. Qed.

Lemma append_length (a b : string) :
  String.length (a +:+ b) = String.length a + String.length b.
Proof. induction a as [|c a IH]; simpl; [done|]. by rewrite IH. Qed.

Lemma append_nonempty (a b : string) :
  is_empty b = false -> is_empty (a +:+ b) = false.
Proof. by destruct a. Qed.

(** Unfolding of [remove_all] without fuel. *)
Lemma remove_all_step (re : matcher) (s : string) :
  consuming re ->
  remove_all re s
  = match re s with
    | Some (_, rest) => remove_all re rest
    | None =>
        match s with
        | EmptyString => EmptyString
        | String c r => String c (remove_all re r)
        end
    end.
Proof.
  intros Hre. unfold remove_all at 1. cbn [remove_loop].
  destruct (re s) as [[g rest]|] eqn:Hm.
  - pose proof (Hre _ _ _ Hm).
    apply remove_loop_enough; [done|lia..].
  - by destruct s.
Qed.

Lemma remove_all_tag (s x rest : string) :
  tagRegex s = Some (x, rest) ->
  remove_all tagRegex s = remove_all tagRegex rest.
Proof.
  intros H. rewrite remove_all_step by apply tagRegex_consuming.
  by rewrite H.
Qed.

Lemma free_of_lt_head (c : ascii) (s : string) :
  free_of is_lt (String c s) = true ->
  c <> "<"%char /\ free_of is_lt s = true.
Proof.
  simpl. intros [Hc Hs]%andb_true_iff. split; [|done].
  intros ->. discriminate.
Qed.

(** Text without an opening angle bracket passes through tag removal. *)
Lemma remove_all_plain_app (a s : string) :
  free_of is_lt a = true ->
  remove_all tagRegex (a +:+ s) = a +:+ remove_all tagRegex s.
Proof.
  induction a as [|c a IH]; [done|].
  intros [Hc Ha]%free_of_lt_head.
  change (String c a +:+ s) with (String c (a +:+ s)).
  rewrite remove_all_step by apply tagRegex_consuming.
  rewrite tagRegex_head by done.
  change (String c a +:+ remove_all tagRegex s)
    with (String c (a +:+ remove_all tagRegex s)).
  f_equal. by apply IH.
Qed.

Lemma remove_all_plain (a : string) :
  free_of is_lt a = true -> remove_all tagRegex a = a.
Proof.
  induction a as [|c a IH]; [done|].
  intros [Hc Ha]%free_of_lt_head.
  rewrite remove_all_step by apply tagRegex_consuming.
  rewrite tagRegex_head by done. f_equal. by apply IH.
Qed.

Lemma first_line_app (a s : string) :
  free_of is_lf a = true ->
  first_line (a +:+ s) = a +:+ first_line s.
Proof.
  induction a as [|c a IH]; [done|].
  simpl. intros [Hc Ha]%andb_true_iff.
  unfold is_lf in Hc. apply negb_true_iff in Hc. rewrite Hc.
  change (String c a +:+ first_line s)
    with (String c (a +:+ first_line s)).
  f_equal. by apply IH.
Qed.

Lemma first_line_app_lf (a s : string) :
  free_of is_lf a = true ->
  first_line (a +:+ String "010" s) = a.
Proof.
  intros Ha. rewrite first_line_app by done. simpl.
  apply append_nil_r.
Qed.

Lemma drop_while_idem (p : ascii -> bool) (s : string) :
  drop_while p (drop_while p s) = drop_while p s.
Proof.
  induction s as [|c s IH]; [done|]. simpl.
  destruct (p c) eqn:Hc; [done|]. simpl. by rewrite Hc.
Qed.

(** The title of a content that starts with a heading line: when the
    heading text has no markup and no line feed, the title is the trimmed
    text. *)
Lemma noteTitle_heading (t rest : string) :
  plain t = true ->
  noteTitle ("# " +:+ t +:+ String "010" rest) = trim t.
Proof.
  intros [Hlt Hlf]%andb_true_iff. unfold noteTitle.
  change ("# " +:+ t +:+ String "010" rest)
    with (("# " +:+ t) +:+ String "010" rest) at 1.
  rewrite first_line_app_lf by (simpl; done).
  rewrite remove_all_plain by (simpl; done).
  change (trim (drop_while is_space t) = trim t).
  unfold trim, trimStart. by rewrite drop_while_idem.
Qed.

End TitleRoundTrips.

Section LookupFacts.
Import Text Regex Parser Canvas NoteEditor.

Lemma find_first_Some {A} (p : A -> bool) (l : list A) (x : A) :
  find_first p l = Some x -> x ∈ l /\ p x = true.
Proof.
  unfold find_first. intros H. apply head_Some_elem_of in H.
  apply list_elem_of_filter in H. tauto.
Qed.

Lemma find_first_None {A} (p : A -> bool) (l : list A) :
  find_first p l = None <-> forall x, x ∈ l -> p x = false.
Proof.
  unfold find_first. rewrite head_None. split.
  - intros H x Hx. destruct (p x) eqn:Hp; [|done].
    exfalso. eapply (filter_nil_not_elem_of _ l x); eauto.
  - intros H. induction l as [|a l IH]; [done|].
    rewrite filter_cons. rewrite decide_False.
    + apply IH. intros x Hx. apply H. by right.
    + rewrite H by by left. discriminate.
Qed.

Lemma elem_of_notes (p : nat * canvasNode) (d : db) :
  p ∈ filter (fun n => is_note n = true) (collect_nodes d)
  <-> canvasNodes d !! p.1 = Some p.2 /\ node_type_of p.2 = TypeNote.
Proof.
  rewrite list_elem_of_filter. unfold collect_nodes, is_note.
  destruct p as [id n]. rewrite elem_of_map_to_list. simpl.
  rewrite bool_decide_eq_true. tauto.
Qed.

Global Instance newer_first_total : Total newer_first.
Proof. intros a b. unfold newer_first. lia. Qed.

Global Instance newer_first_trans : Transitive newer_first.
Proof. intros a b c. unfold newer_first. lia. Qed.

(** X8: [listNotes] returns every stored node of type note, each once, and
    nothing else, ordered by [updatedAt] from the newest to the oldest:
    no entry is followed, at any distance, by a more recently updated
    one. *)
Theorem listNotes_newest_first (d : db) :
  (forall p, p ∈ listNotes d
             <-> canvasNodes d !! p.1 = Some p.2
                 /\ node_type_of p.2 = TypeNote)
  /\ NoDup (listNotes d).*1
  /\ StronglySorted newer_first (listNotes d)
  /\ (forall i j a b,
        listNotes d !! i = Some a -> listNotes d !! j = Some b -> i < j ->
        (node_updatedAt b.2 <= node_updatedAt a.2)%Z).
Proof.
  assert (Hsorted : StronglySorted newer_first (listNotes d)).
  { unfold listNotes. apply StronglySorted_merge_sort; apply _. }
  split_and!.
  - intros p. unfold listNotes. rewrite merge_sort_Permutation.
    apply elem_of_notes.
  - unfold listNotes. rewrite merge_sort_Permutation.
    eapply sublist_NoDup; [apply (NoDup_fst_map_to_list (canvasNodes d))|].
    apply fmap_sublist, sublist_filter.
  - exact Hsorted.
  - intros i j a b Hi Hj Hij.
    revert i j a b Hi Hj Hij.
    induction Hsorted as [|x l Hl IH Hx]; intros i j a b Hi Hj Hij.
    + by rewrite lookup_nil in Hi.
    + destruct j as [|j]; [lia|]. simpl in Hj.
      destruct i as [|i].
      * simpl in Hi. injection Hi as <-.
        rewrite Forall_forall in Hx. apply (Hx b).
        by eapply list_elem_of_lookup_2.
      * simpl in Hi. eapply IH; eauto. lia.
Qed.

(** X9: [findNoteByTitle] answers nothing for the empty title.  A note it
    returns is a stored note whose title (first line, tags removed, heading
    marker stripped, trimmed) equals the requested title up to case; when
    it answers nothing for a non-empty title, no stored note has such a
    title. *)
Theorem findNoteByTitle_sound_complete (title : string) (d : db) :
  (title = EmptyString -> findNoteByTitle title d = None)
  /\ (forall p,
        findNoteByTitle title d = Some p ->
        canvasNodes d !! p.1 = Some p.2
        /\ node_type_of p.2 = TypeNote
        /\ toLowerCase (noteTitle (node_content p.2)) = toLowerCase title)
  /\ (title <> EmptyString ->
      findNoteByTitle title d = None ->
      forall id n,
        canvasNodes d !! id = Some n ->
        node_type_of n = TypeNote ->
        toLowerCase (noteTitle (node_content n)) <> toLowerCase title).
Proof.
  unfold findNoteByTitle. split_and!.
  - by intros ->.
  - intros p. destruct (is_empty title); [done|].
    intros [Hin Hp]%find_first_Some.
    apply elem_of_notes in Hin as [Hl Ht].
    by apply String.eqb_eq in Hp.
  - intros Hne. destruct title as [|c t]; [done|]. cbn [is_empty].
    intros Hnone id n Hl Ht Heq.
    rewrite find_first_None in Hnone.
    assert (Hin : (id, n) ∈ filter (fun n => is_note n = true)
                                   (collect_nodes d))
      by by apply elem_of_notes.
    apply Hnone in Hin. by apply String.eqb_neq in Hin.
Qed.

Lemma find_first_hit {A} (p : A -> bool) (l : list A) (x : A) :
  x ∈ l -> p x = true -> is_Some (find_first p l).
Proof.
  intros Hx Hp. destruct (find_first p l) eqn:Hf; [by eexists|].
  rewrite find_first_None in Hf. rewrite Hf in Hp by done. discriminate.
Qed.

End LookupFacts.

Section DailyNoteFacts.
Import Text Regex Parser Canvas NoteEditor.

Lemma free_of_weaken (p q : ascii -> bool) (s : string) :
  (forall c, q c = true -> p c = true) ->
  free_of p s = true -> free_of q s = true.
Proof.
  intros Hpq. induction s as [|c s IH]; [done|]. simpl.
  intros [Hc Hs]%andb_true_iff. apply andb_true_iff. split; [|by apply IH].
  apply negb_true_iff. apply negb_true_iff in Hc.
  destruct (q c) eqn:Hq; [|done]. apply Hpq in Hq. congruence.
Qed.

Lemma date_like_plain (s : string) : date_like s = true -> plain s = true.
Proof.
  intros H. unfold plain. apply andb_true_iff. split.
  - eapply free_of_weaken; [|exact H].
    intros c Hc. apply Ascii.eqb_eq in Hc. by subst.
  - eapply free_of_weaken; [|exact H].
    intros c Hc. apply Ascii.eqb_eq in Hc. by subst.
Qed.

Lemma strip_heading_head (c : ascii) (r : string) :
  c <> "#"%char -> strip_heading (String c r) = String c r.
Proof.
  intros Hc. unfold strip_heading.
  destruct c as [[] [] [] [] [] [] [] []]; try reflexivity.
  by destruct Hc.
Qed.

Lemma date_char_facts (c : ascii) :
  date_char c = true -> is_space c = false /\ c <> "#"%char.
Proof.
  destruct c as [[] [] [] [] [] [] [] []]; intros H; vm_compute in H;
    try discriminate; (split; [reflexivity|discriminate]).
Qed.

Lemma append_assoc_string (a b c : string) :
  (a +:+ b) +:+ c = a +:+ b +:+ c.
Proof.
  induction a as [|x a IH]; [done|].
  change ((String x a +:+ b) +:+ c) with (String x ((a +:+ b) +:+ c)).
  change (String x a +:+ b +:+ c) with (String x (a +:+ b +:+ c)).
  by rewrite IH.
Qed.

Lemma trimEnd_app (a b : string) :
  is_empty (trimEnd b) = false ->
  trimEnd (a +:+ b) = a +:+ trimEnd b.
Proof.
  intros Hb. induction a as [|c a IH]; [done|].
  change (String c a +:+ b) with (String c (a +:+ b)).
  change (String c a +:+ trimEnd b) with (String c (a +:+ trimEnd b)).
  cbn [trimEnd]. rewrite IH.
  rewrite (append_nonempty a (trimEnd b) Hb).
  by rewrite andb_false_r.
Qed.

(** The text that tag removal leaves of the closed part of the
    template. *)
Lemma dailyNote_tail_text :
  remove_all tagRegex
    ("</h2><h3>Morning</h3><ul><li><p></p></li></ul><h3>Tasks</h3><ul "
     +:+ attr "data-type" "taskList" +:+ "><li "
     +:+ attr "data-type" "taskItem" +:+ " "
     +:+ attr "data-checked" "false" +:+ "><label><input "
     +:+ attr "type" "checkbox"
     +:+ "><span></span></label><div><p></p></div></li></ul>"
     +:+ "<h3>Notes</h3><p></p><h3>Evening Reflection</h3><p></p>")
  = "MorningTasksNotesEvening Reflection".
Proof. vm_compute. reflexivity. Qed.

(** The title that [extractNoteTitle] computes for a daily note: the
    whole template is one line, so the title is all of its text. *)
Lemma dailyNote_title (c : ascii) (d dayName monthDay : string) :
  date_like (String c d) = true ->
  plain dayName = true ->
  plain monthDay = true ->
  extractNoteTitle (dailyNoteContent (String c d) dayName monthDay)
  = String c d +:+ dayName +:+ ", " +:+ monthDay
    +:+ "MorningTasksNotesEvening Reflection".
Proof.
  intros Hd [Hn1 Hn2]%andb_true_iff [Hm1 Hm2]%andb_true_iff.
  pose proof (date_like_plain _ Hd) as [Hd1 Hd2]%andb_true_iff.
  unfold extractNoteTitle, dailyNoteContent.
  match goal with |- context [monthDay +:+ ?t] => set (tail := t) end.
  assert (Hline : first_line
                    ("<h1>" +:+ String c d +:+ "</h1><h2>" +:+ dayName
                     +:+ ", " +:+ monthDay +:+ tail)
                  = "<h1>" +:+ String c d +:+ "</h1><h2>" +:+ dayName
                    +:+ ", " +:+ monthDay +:+ tail).
  { assert (Htail : first_line tail = tail)
      by (subst tail; vm_compute; reflexivity).
    rewrite (first_line_app "<h1>") by reflexivity.
    rewrite (first_line_app (String c d)) by done.
    rewrite (first_line_app "</h1><h2>") by reflexivity.
    rewrite (first_line_app dayName) by done.
    rewrite (first_line_app ", ") by reflexivity.
    rewrite (first_line_app monthDay) by done.
    by rewrite Htail. }
  rewrite Hline. clear Hline.
  rewrite (remove_all_tag _ "h1"
             (String c d +:+ "</h1><h2>" +:+ dayName +:+ ", "
              +:+ monthDay +:+ tail)) by reflexivity.
  rewrite (remove_all_plain_app (String c d)) by done.
  rewrite (remove_all_tag _ "/h1"
             ("<h2>" +:+ dayName +:+ ", " +:+ monthDay +:+ tail))
    by reflexivity.
  rewrite (remove_all_tag _ "h2" (dayName +:+ ", " +:+ monthDay +:+ tail))
    by reflexivity.
  rewrite (remove_all_plain_app dayName) by done.
  rewrite (remove_all_plain_app ", ") by reflexivity.
  rewrite (remove_all_plain_app monthDay) by done.
  subst tail. rewrite dailyNote_tail_text.
  set (text := dayName +:+ ", " +:+ monthDay
               +:+ "MorningTasksNotesEvening Reflection").
  change (String c d +:+ text) with (String c (d +:+ text)).
  simpl in Hd. apply andb_true_iff in Hd as [Hc _].
  apply negb_true_iff, negb_false_iff in Hc.
  apply date_char_facts in Hc as [Hsp Hhash].
  rewrite strip_heading_head by done.
  unfold trim, trimStart. cbn [drop_while]. rewrite Hsp.
  change (String c (d +:+ text)) with (String c d +:+ text).
  subst text.
  assert (Hkeep : forall t,
             trimEnd (t +:+ "MorningTasksNotesEvening Reflection")
             = t +:+ "MorningTasksNotesEvening Reflection").
  { intros t. by rewrite trimEnd_app. }
  rewrite <- !append_assoc_string.
  rewrite Hkeep.
  unfold or_default.
  by rewrite !append_assoc_string.
Qed.

End DailyNoteFacts.

Section DailyNoteLookup.
Import Text Regex Parser Canvas NoteEditor.

Lemma dailyNote_title_differs (dateString dayName monthDay : string) :
  date_like dateString = true ->
  plain dayName = true ->
  plain monthDay = true ->
  extractNoteTitle (dailyNoteContent dateString dayName monthDay)
  <> dateString.
Proof.
  intros Hd Hn Hm. destruct dateString as [|c d].
  - apply (or_default_nonempty _ "Untitled"). discriminate.
  - rewrite dailyNote_title by done. intros Heq.
    apply (f_equal String.length) in Heq.
    rewrite !append_length in Heq. simpl in Heq. lia.
Qed.

(** X11: [findDailyNote] does not recognise a note that holds the
    template of [createDailyNote].  The template is a single line of
    markup, so the title that [extractNoteTitle] computes for it is the
    date followed by all the other text of the template, and never the
    date alone.  Hence, for a date made of digits and hyphens and day and
    month names without markup or line feed, the answer of
    [findDailyNote] for the date is never a note with this content.
    [createDailyNote] itself stores nothing: its document has no
    [userId], and the store rejects it. *)
Theorem dailyNote_template_not_found (now : Z)
    (dateString dayName monthDay : string) (d : db) :
  date_like dateString = true ->
  plain dayName = true ->
  plain monthDay = true ->
  (dateString <> EmptyString ->
   extractNoteTitle (dailyNoteContent dateString dayName monthDay)
   = dateString +:+ dayName +:+ ", " +:+ monthDay
     +:+ "MorningTasksNotesEvening Reflection")
  /\ (forall p,
        findDailyNote dateString d = Some p ->
        node_content p.2 <> dailyNoteContent dateString dayName monthDay)
  /\ createDailyNote now dayName monthDay dateString d
     = (Throw (schema_violation "canvasNodes" "userId"), d).
Proof.
  intros Hd Hn Hm. split_and!.
  - intros Hne. destruct dateString as [|c s]; [done|].
    by apply dailyNote_title.
  - intros p Hfind Hcontent. unfold findDailyNote in Hfind.
    apply find_first_Some in Hfind as [_ Hp].
    apply String.eqb_eq in Hp. rewrite Hcontent in Hp.
    by apply (dailyNote_title_differs dateString dayName monthDay).
  - reflexivity.
Qed.

Lemma dailyNote_template_not_found_witness :
  extractNoteTitle
    (dailyNoteContent "2025-12-18" "Thursday" "December 18, 2025")
  = "2025-12-18Thursday, December 18, 2025MorningTasksNotesEvening Reflection"
  /\ createDailyNote 5 "Thursday" "December 18, 2025" "2025-12-18"
       empty_db
     = (Throw (schema_violation "canvasNodes" "userId"), empty_db).
Proof.
  destruct (dailyNote_template_not_found 5 "2025-12-18" "Thursday"
              "December 18, 2025" empty_db eq_refl eq_refl eq_refl)
    as (Htitle & _ & Hrun).
  split; [|exact Hrun]. apply Htitle. discriminate.
Defined.

End DailyNoteLookup.

(* ===================================================================== *)
(** * Further properties of the voice-note handlers and the pipeline     *)
(* ===================================================================== *)

Section VoiceNoteFacts.
Import Text Canvas VoiceNotes.
Variable E : env.

Lemma owned_updateStatus (now : Z) (args : updateStatusArgs) (d : db)
    (v : voiceNote) :
  voiceNotes d !! us_id args = Some v ->
  identity E = Some (voice_userId v) ->
  updateStatus E now args d
  = (Ok tt, set_voiceNotes (insert (us_id args) (apply_status now args v)) d).
Proof. intros Hv Hid. by apply updateStatus_ok. Qed.

(** What [updateStatus] does when the caller does not own the note. *)
Lemma not_owned_updateStatus (now : Z) (args : updateStatusArgs) (d : db) :
  ~ owned E (us_id args) d ->
  exists message,
    updateStatus E now args d = (Throw (JsError message), d)
    /\ (message = "Unauthorized" /\ identity E = None
        \/ message = "Not found" /\ identity E <> None).
Proof.
  intros Hno. unfold updateStatus, transaction, bind, getAuthenticatedUser.
  destruct (identity E) as [subject|] eqn:Hid.
  - exists "Not found". unfold ret, get_voiceNote, gets.
    destruct (voiceNotes d !! us_id args) as [v|] eqn:Hv.
    + destruct (bool_decide (voice_userId v = subject)) eqn:Hown.
      * exfalso. apply Hno. exists v. split; [done|].
        apply bool_decide_eq_true in Hown. by rewrite Hown.
      * split; [done|right; done].
    + split; [done|right; done].
  - exists "Unauthorized". split; [done|left; done].
Qed.

(** X12: Access control of the voice-note handlers.  A caller who is not
    signed in gets the error Unauthorized from [updateStatus], [get] and
    [create]; a signed-in caller who addresses a voice note that does not
    exist or belongs to someone else gets the error Not found from
    [updateStatus] and no document from [get].  In all these cases the
    store is left as it was.  The owner's [updateStatus] succeeds and
    changes that voice note only, keeping its owner, file and duration. *)
Theorem voiceNote_access_control (now : Z) (args : updateStatusArgs)
    (d : db) :
  (identity E = None ->
   updateStatus E now args d = (Throw (JsError "Unauthorized"), d)
   /\ get E (us_id args) d = (Throw (JsError "Unauthorized"), d)
   /\ forall fileId duration,
        VoiceNotesQueries.create E now fileId duration d
        = (Throw (JsError "Unauthorized"), d))
  /\ (identity E <> None -> ~ owned E (us_id args) d ->
      updateStatus E now args d = (Throw (JsError "Not found"), d)
      /\ get E (us_id args) d = (Ok None, d))
  /\ (forall v,
        voiceNotes d !! us_id args = Some v ->
        identity E = Some (voice_userId v) ->
        exists d' v',
          updateStatus E now args d = (Ok tt, d')
          /\ get E (us_id args) d' = (Ok (Some v'), d')
          /\ voice_userId v' = voice_userId v
          /\ voice_fileId v' = voice_fileId v
          /\ voice_duration v' = voice_duration v
          /\ voice_status_of v' = us_status args
          /\ (forall k, k <> us_id args ->
                        voiceNotes d' !! k = voiceNotes d !! k)
          /\ canvasNodes d' = canvasNodes d
          /\ canvasEdges d' = canvasEdges d).
Proof.
  split_and!.
  - intros Hid. split_and!.
    + unfold updateStatus, transaction, bind, getAuthenticatedUser.
      by rewrite Hid.
    + unfold get, bind, getAuthenticatedUser. by rewrite Hid.
    + intros fileId duration.
      unfold VoiceNotesQueries.create, transaction, bind,
        getAuthenticatedUser.
      by rewrite Hid.
  - intros Hid Hno. split.
    + destruct (not_owned_updateStatus now args d Hno)
        as (m & Hm & [[_ Hnone]|[-> _]]); [done|exact Hm].
    + unfold get, bind, getAuthenticatedUser.
      destruct (identity E) as [subject|] eqn:Hs; [|done].
      unfold ret, get_voiceNote, gets.
      destruct (voiceNotes d !! us_id args) as [v|] eqn:Hv; [|done].
      destruct (bool_decide (voice_userId v = subject)) eqn:Hown; [|done].
      exfalso. apply Hno. exists v. split; [done|].
      apply bool_decide_eq_true in Hown. by rewrite Hown.
  - intros v Hv Hid. eexists _, _.
    split; [by apply owned_updateStatus|].
    split.
    { apply (get_ok E _ _ (apply_status now args v)); [exact Hid|].
      simpl. apply lookup_insert_eq. }
    split_and!; try reflexivity.
    intros k Hk. simpl. by rewrite lookup_insert_ne.
Qed.

(** X13: A voice note just created can be read back by its owner: it is in
    status [Uploaded], without transcript or error message, and the id was
    free before.  Nothing else changes. *)
Theorem create_then_get (now : Z) (fileId : nat) (duration : Q) (d : db)
    (subject : string) :
  identity E = Some subject ->
  allocated d ->
  exists id d' v,
    VoiceNotesQueries.create E now fileId duration d = (Ok id, d')
    /\ voiceNotes d !! id = None
    /\ get E id d' = (Ok (Some v), d')
    /\ voice_userId v = subject
    /\ voice_fileId v = fileId
    /\ voice_status_of v = Uploaded
    /\ voice_transcription v = None
    /\ voice_errorMessage v = None
    /\ (forall k, k <> id -> voiceNotes d' !! k = voiceNotes d !! k)
    /\ canvasNodes d' = canvasNodes d
    /\ canvasEdges d' = canvasEdges d.
Proof.
  intros Hid (_ & _ & Hv).
  unfold VoiceNotesQueries.create, transaction, bind, getAuthenticatedUser.
  rewrite Hid. unfold ret, insert_voiceNote.
  eexists _, _, _. split; [reflexivity|].
  split.
  { destruct (voiceNotes d !! next_id d) eqn:Hk; [|done].
    assert (next_id d < next_id d) by (apply Hv; by eexists). lia. }
  split.
  { eapply get_ok; cycle 1.
    - simpl. apply lookup_insert_eq.
    - exact Hid. }
  split_and!; try reflexivity.
  intros k Hk. simpl. by rewrite lookup_insert_ne.
Qed.

End VoiceNoteFacts.

Lemma voiceNote_access_control_witness :
  updateStatus batch_env 3 (status_args 5 Completed None None)
               (store batch_world)
  = (Throw (JsError "Not found"), store batch_world).
Proof.
  refine (proj1 (proj1 (proj2 (voiceNote_access_control batch_env 3
    (status_args 5 Completed None None) (store batch_world))) _ _)).
  - discriminate.
  - intros (v & Hv & _). vm_compute in Hv. discriminate.
Defined.

Lemma create_then_get_witness :
  exists id d' v,
    VoiceNotesQueries.create batch_env 4 7 (12 # 1)%Q empty_db = (Ok id, d')
    /\ get batch_env id d' = (Ok (Some v), d')
    /\ voice_status_of v = Uploaded.
Proof.
  destruct (create_then_get batch_env 4 7 (12 # 1)%Q empty_db "user"
              eq_refl allocated_empty)
    as (id & d' & v & H1 & _ & H2 & _ & _ & H3 & _).
  by exists id, d', v.
Defined.

Section FrameFacts.
Import Text Canvas VoiceNotes.
Variable E : env.

Lemma loop_frame_refl (b : nat) (d : db) : loop_frame b d d.
Proof. unfold loop_frame. split_and!; done. Qed.

Lemma loop_frame_trans (b : nat) (d1 d2 d3 : db) :
  loop_frame b d1 d2 -> loop_frame b d2 d3 -> loop_frame b d1 d3.
Proof.
  intros (Hn1 & Hv1 & H1) (Hn2 & Hv2 & H2). unfold loop_frame.
  split_and!; [lia|congruence|].
  intros Hb. destruct (H1 Hb) as [Hnodes1 Hedges1].
  destruct H2 as [Hnodes2 Hedges2]; [lia|].
  split; intros k Hk.
  - by rewrite Hnodes2, Hnodes1.
  - by rewrite Hedges2, Hedges1.
Qed.

Lemma loop_frame_insert_edge (b : nat) (e : canvasEdge) (d : db) :
  b <= next_id d ->
  loop_frame b d (bump (set_edges (insert (next_id d) e) d)).
Proof.
  intros Hb. unfold loop_frame. simpl. split_and!; [lia|done|].
  intros _. split; [done|].
  intros k Hk. apply lookup_insert_ne. lia.
Qed.

Lemma link_related_frame (b nodeId : nat) (createdNodeIds : list nat)
    (related : list (option relatedNode)) (w : world)
    (r : outcome unit) (w' : world) :
  b <= next_id (store w) ->
  link_related E nodeId createdNodeIds related w = (r, w') ->
  loop_frame b (store w) (store w').
Proof.
  unfold link_related. revert w.
  induction related as [|cand related IH]; intros w Hb.
  - intros [= <- <-]. apply loop_frame_refl.
  - rewrite for_each_cons.
    destruct cand as [rel|]; [|by apply IH].
    destruct (linkable nodeId createdNodeIds (Some rel)); [|by apply IH].
    intros H. eapply loop_frame_trans; cycle 1.
    + eapply IH; [|exact H]. simpl. lia.
    + simpl. by apply loop_frame_insert_edge.
Qed.

(** Embedding a node touches no edge and removes no node. *)
Lemma embedCanvasNode_effect (nodeId : nat) (content : string) (w : world)
    (r : outcome unit) (w' : world) :
  embedCanvasNode E nodeId content w = (r, w') ->
  canvasEdges (store w') = canvasEdges (store w)
  /\ next_id (store w') = next_id (store w)
  /\ forall id, is_Some (canvasNodes (store w) !! id) ->
                is_Some (canvasNodes (store w') !! id).
Proof.
  unfold embedCanvasNode, bind, await.
  destruct (embed E content) as [v|err]; [|by intros [= <- <-]].
  rewrite runMutation_eq.
  unfold updateNodeEmbedding, transaction. rewrite patch_node_eq.
  destruct (canvasNodes (store w) !! nodeId) as [n|] eqn:Hn;
    intros [= <- <-]; simpl; [|done].
  split; [done|]. split; [done|]. intros id Hid.
  destruct (decide (id = nodeId)) as [->|Hne].
  - rewrite lookup_insert_eq. by eexists.
  - by rewrite lookup_insert_ne.
Qed.

(** Embedding a stored node, when the embedding request is answered. *)
Lemma embedCanvasNode_stored (nodeId : nat) (content : string) (w : world)
    (n : canvasNode) (v : list Q) :
  canvasNodes (store w) !! nodeId = Some n ->
  embed E content = Ok v ->
  embedCanvasNode E nodeId content w
  = (Ok tt,
     {| store := set_nodes (insert nodeId (set_embedding v n)) (store w);
        ticks := S (ticks w) |}).
Proof.
  intros Hn Hv. unfold embedCanvasNode, bind, await. rewrite Hv.
  rewrite runMutation_eq.
  unfold updateNodeEmbedding, transaction. by rewrite patch_node_eq, Hn.
Qed.

(** One step of the linking loop. *)
Lemma link_related_cons (nodeId : nat) (createdNodeIds : list nat)
    (head : option relatedNode) (rest : list (option relatedNode))
    (w : world) :
  link_related E nodeId createdNodeIds (head :: rest) w
  = match head with
    | Some rel =>
        if linkable nodeId createdNodeIds (Some rel)
        then link_related E nodeId createdNodeIds rest
               {| store :=
                    bump (set_edges
                            (insert (next_id (store w))
                               {| edge_source := nodeId;
                                  edge_target := related_id rel;
                                  edge_label := Some (score_label rel);
                                  edge_createdAt := clock E (ticks w) |})
                            (store w));
                  ticks := S (ticks w) |}
        else link_related E nodeId createdNodeIds rest w
    | None => link_related E nodeId createdNodeIds rest w
    end.
Proof.
  unfold link_related. rewrite for_each_cons.
  destruct head as [rel|]; [|reflexivity].
  by destruct (linkable nodeId createdNodeIds (Some rel)).
Qed.

(** The linking loop links every candidate it may link: a candidate that
    is neither the node itself nor in [createdNodeIds] gets an edge. *)
Lemma link_related_links (nodeId : nat) (createdNodeIds : list nat)
    (related : list (option relatedNode)) (cand : relatedNode)
    (w : world) (r : outcome unit) (w' : world) :
  link_related E nodeId createdNodeIds related w = (r, w') ->
  Some cand ∈ related ->
  related_id cand <> nodeId ->
  related_id cand ∉ createdNodeIds ->
  exists eid e,
    canvasEdges (store w') !! eid = Some e
    /\ next_id (store w) <= eid
    /\ edge_source e = nodeId
    /\ edge_target e = related_id cand
    /\ edge_label e = Some (score_label cand).
Proof.
  intros Hrun Hin Hself Hex. revert w Hrun.
  induction related as [|head related IH]; intros w Hrun.
  - by apply elem_of_nil in Hin.
  - rewrite link_related_cons in Hrun.
    apply elem_of_cons in Hin as [Hhead|Hin].
    + subst head.
      assert (Hlink : linkable nodeId createdNodeIds (Some cand) = true).
      { simpl. by rewrite !bool_decide_eq_false_2 by done. }
      rewrite Hlink in Hrun.
      apply (link_related_frame (S (next_id (store w)))) in Hrun;
        [|simpl; lia].
      destruct Hrun as (_ & _ & Hkeep).
      destruct Hkeep as [_ Hedges]; [simpl; lia|].
      eexists (next_id (store w)), _. split.
      { rewrite Hedges by lia. simpl. apply lookup_insert_eq. }
      split_and!; done.
    + assert (Hstep : exists w1,
                 link_related E nodeId createdNodeIds related w1 = (r, w')
                 /\ next_id (store w) <= next_id (store w1)).
      { destruct head as [rel|]; [|by exists w].
        destruct (linkable nodeId createdNodeIds (Some rel));
          [|by exists w].
        eexists. split; [exact Hrun|]. simpl. lia. }
      destruct Hstep as (w1 & Hrest & Hle).
      destruct (IH Hin w1 Hrest) as (eid & e & He & Hge & Hrest').
      exists eid, e. split; [done|]. split; [lia|done].
Qed.

Lemma link_by_similarity_links (limit nodeId : nat)
    (createdNodeIds : list nat) (query : string)
    (ranked : list (option relatedNode)) (cand : relatedNode)
    (w : world) (r : outcome unit) (w' : world) :
  nearest E (canvasNodes (store w)) query = Ok ranked ->
  link_by_similarity E limit nodeId createdNodeIds query w = (r, w') ->
  Some cand ∈ take limit ranked ->
  related_id cand <> nodeId ->
  related_id cand ∉ createdNodeIds ->
  exists eid e,
    canvasEdges (store w') !! eid = Some e
    /\ next_id (store w) <= eid
    /\ edge_source e = nodeId
    /\ edge_target e = related_id cand
    /\ edge_label e = Some (score_label cand).
Proof.
  intros Hnearest.
  unfold link_by_similarity, findRelated, bind, gets, await, ret.
  rewrite Hnearest. apply link_related_links.
Qed.

End FrameFacts.

Section BatchFacts.
Import Text Canvas VoiceNotes.
Variable E : env.

(** C6 (amended): the step of an iteration that embeds and links the
    note [nodeId] of a concept, in any store and with any list
    [createdNodeIds] of the notes created so far in the run.
    - It removes no node, so the notes created earlier in the run are in
      the store when the neighbour query is asked: the query is asked on
      the node table of the store as it is then, with the note's embedding
      stored.
    - Every candidate among the first three of the ranking that is
      neither the note itself nor in [createdNodeIds] gets an edge from
      the note.
    - Every edge the step adds goes from the note to a node that is
      neither the note itself nor in [createdNodeIds]: an edge from a
      later concept's note to an earlier concept's note of the same run
      is never created.
    - The list handed to the next iteration holds the note's id too. *)
Theorem link_concept_no_intra_batch_edge (createdNodeIds : list nat)
    (xOffset : Q) (nodeId : nat) (c : concept) (w : world)
    (r : outcome (list nat * Q)) (w' : world) :
  link_concept E createdNodeIds xOffset nodeId c w = (r, w') ->
  (forall id, is_Some (canvasNodes (store w) !! id) ->
              is_Some (canvasNodes (store w') !! id))
  /\ (forall n v ranked cand,
        canvasNodes (store w) !! nodeId = Some n ->
        embed E (concept_content c) = Ok v ->
        nearest E (<[nodeId := set_embedding v n]> (canvasNodes (store w)))
                (concept_content c) = Ok ranked ->
        Some cand ∈ take 3 ranked ->
        related_id cand ∉ createdNodeIds ++ [nodeId] ->
        exists eid e,
          canvasEdges (store w') !! eid = Some e
          /\ next_id (store w) <= eid
          /\ edge_source e = nodeId
          /\ edge_target e = related_id cand)
  /\ (forall eid e,
        canvasEdges (store w') !! eid = Some e ->
        canvasEdges (store w) !! eid = Some e
        \/ (next_id (store w) <= eid
            /\ edge_source e = nodeId
            /\ edge_target e ∉ createdNodeIds ++ [nodeId]))
  /\ (forall st', r = Ok st' ->
                  st' = (createdNodeIds ++ [nodeId],
                         (xOffset + (350 # 1))%Q)).
Proof.
  unfold link_concept. cbv zeta. unfold bind at 1.
  destruct (embedCanvasNode E nodeId (concept_content c) w)
    as [[[]|err] w1] eqn:Hembed.
  - pose proof (embedCanvasNode_effect E _ _ _ _ _ Hembed)
      as (Hedges1 & Hnext1 & Hnodes1).
    unfold bind at 1.
    destruct (link_by_similarity E 3 nodeId (createdNodeIds ++ [nodeId])
                (concept_content c) w1) as [r2 w2] eqn:Hlink.
    pose proof (link_by_similarity_effect E _ _ _ _ _ _ _ Hlink)
      as (Hn2 & _ & Hid2 & _ & He2).
    intros Hr.
    assert (w' = w2) as -> by (destruct r2; simpl in Hr; by inversion Hr).
    split_and!.
    + intros id Hid. rewrite Hn2. by apply Hnodes1.
    + intros n v ranked cand Hn Hv Hnearest Hin Hex.
      rewrite (embedCanvasNode_stored E _ _ _ n v Hn Hv) in Hembed.
      injection Hembed as <-.
      eapply (link_by_similarity_links E) in Hlink;
        [|exact Hnearest|exact Hin| |exact Hex].
      * destruct Hlink as (eid & e & He & Hge & Hs & Ht & _).
        by exists eid, e.
      * intros Heq. apply Hex. apply elem_of_app. right.
        by apply list_elem_of_singleton.
    + intros eid e He. apply He2 in He as [Hold|(Hr' & Hs & _ & Hx)].
      * left. by rewrite Hedges1 in Hold.
      * right. split_and!; [lia|done|done].
    + intros st' ->. destruct r2; simpl in Hr; by inversion Hr.
  - intros [= <- <-].
    pose proof (embedCanvasNode_effect E _ _ _ _ _ Hembed)
      as (Hedges1 & Hnext1 & Hnodes1).
    split_and!.
    + exact Hnodes1.
    + intros n v ranked cand Hn Hv _ _ _.
      rewrite (embedCanvasNode_stored E _ _ _ n v Hn Hv) in Hembed.
      discriminate.
    + intros eid e He. left. by rewrite Hedges1 in He.
    + intros st' [=].
Qed.

End BatchFacts.

(** C6, as stated, fails.  A run over two concepts creates no edge at
    all: the insert of the first concept's note is rejected and the run
    ends in an error before any linking.  And where the linking step does
    run on a graph that holds the notes of both concepts, the neighbour
    query of the second concept's note (id 2) does return the note of the
    first concept (id 1), together with a note from before the run (id 0);
    the step links note 2 to note 0 and creates no edge to note 1. *)
Lemma intra_batch_link_counterexample :
  let run := process batch_env 0 batch_world in
  let step := link_concept crowded_env [1] (350 # 1)%Q 2 concept_B
                batch_graph in
  run.1 = Throw (schema_violation "canvasNodes" "userId")
  /\ listNodes (store run.2) = []
  /\ listEdges (store run.2) = []
  /\ Some {| related_id := 1; related_score := (7 # 8)%Q |}
       ∈ default []
           (match (findRelated crowded_env (concept_content concept_B) 3
                     (embedCanvasNode crowded_env 2
                        (concept_content concept_B) batch_graph).2).1 with
            | Ok ranked => Some ranked
            | Throw _ => None
            end)
  /\ step.1 = Ok ([1; 2], (700 # 1)%Q)
  /\ map (fun p => (edge_source p.2, edge_target p.2))
         (listEdges (store step.2))
     = [(2, 0)].
Proof.
  cbn zeta. split_and!.
  - vm_compute. reflexivity.
  - vm_compute. reflexivity.
  - vm_compute. reflexivity.
  - vm_compute. repeat first [by left | right].
  - vm_compute. reflexivity.
  - vm_compute. reflexivity.
Qed.

Lemma link_concept_no_intra_batch_edge_witness :
  exists eid e,
    canvasEdges
      (store (link_concept crowded_env [1] (350 # 1)%Q 2 concept_B
                batch_graph).2) !! eid = Some e
    /\ edge_source e = 2
    /\ edge_target e = 0.
Proof.
  assert (Hn : is_Some (canvasNodes (store batch_graph) !! 2))
    by (vm_compute; eauto).
  destruct Hn as [n Hn].
  destruct (proj1 (proj2 (link_concept_no_intra_batch_edge crowded_env [1]
                     (350 # 1)%Q 2 concept_B batch_graph _ _
                     (surjective_pairing _)))
                  n [(1 # 1)%Q]
                  (all_neighbours
                     (<[2 := set_embedding [(1 # 1)%Q] n]>
                        (canvasNodes (store batch_graph))))
                  {| related_id := 0; related_score := (7 # 8)%Q |}
                  Hn eq_refl eq_refl)
    as (eid & e & He & _ & Hs & Ht).
  - vm_compute in Hn. injection Hn as <-.
    vm_compute. repeat first [by left | right].
  - simpl. intros Hin. apply elem_of_cons in Hin as [Heq|Hin]; [done|].
    apply list_elem_of_singleton in Hin. done.
  - by exists eid, e.
Defined.

Section LoopFacts.
Import Text Canvas VoiceNotes.
Variable E : env.

(** The note of a concept is rejected by the store: the document that
    [createNode] writes has no [userId]. *)
Lemma create_concept_node_rejected (voiceNoteId : nat)
    (baseX baseY xOffset : Q) (c : concept) (w : world) :
  create_concept_node E voiceNoteId baseX baseY xOffset c w
  = (Throw (schema_violation "canvasNodes" "userId"),
     {| store := store w; ticks := S (ticks w) |}).
Proof. reflexivity. Qed.

Lemma process_concepts_nil (voiceNoteId : nat) (baseX baseY : Q)
    (st : list nat * Q) (w : world) :
  process_concepts E voiceNoteId baseX baseY [] st w = (Ok st, w).
Proof. reflexivity. Qed.

(** So the loop stops at its first concept, having written nothing. *)
Lemma process_concepts_rejected (voiceNoteId : nat) (baseX baseY : Q)
    (c : concept) (rest : list concept) (st : list nat * Q) (w : world) :
  process_concepts E voiceNoteId baseX baseY (c :: rest) st w
  = (Throw (schema_violation "canvasNodes" "userId"),
     {| store := store w; ticks := S (ticks w) |}).
Proof.
  destruct st as [ids xOffset]. cbn [process_concepts].
  unfold bind at 1, process_concept. unfold bind at 1.
  by rewrite create_concept_node_rejected.
Qed.

End LoopFacts.

Section RunFacts.
Import Text Canvas VoiceNotes.
Variable E : env.

Lemma transcription_stage_pure (v : voiceNote) (w : world)
    (r : outcome string) (w' : world) :
  transcription_stage E v w = (r, w') -> w' = w.
Proof.
  destruct w as [d t].
  unfold transcription_stage, runQuery, run, getAudioUrl, bind,
    getAuthenticatedUser, await, throw, ret.
  destruct (identity E); simpl; [|by intros [= _ <-]].
  destruct (storage_getUrl E (voice_fileId v)) as [url|];
    [|by intros [= _ <-]].
  destruct (is_empty url); [by intros [= _ <-]|].
  destruct (fetch_audio E url) as [blob|]; [|by intros [= _ <-]].
  destruct (transcribe E blob) as [[text|errorText]|];
    by intros [= _ <-].
Qed.

Lemma transcription_stage_ok (v : voiceNote) (text subject : string)
    (w : world) :
  identity E = Some subject ->
  transcribes E v text ->
  transcription_stage E v w = (Ok text, w).
Proof.
  intros Hid (url & blob & Hurl & Hne & Hfetch & Htr). destruct w as [d t].
  unfold transcription_stage, runQuery, run, getAudioUrl, bind,
    getAuthenticatedUser, await, throw, ret.
  rewrite Hid. simpl. by rewrite Hurl, Hne, Hfetch, Htr.
Qed.

Lemma extraction_stage_eq (text : string) (w : world) :
  extraction_stage E text w
  = (match extract_concepts E text
             (map (fun n => node_content n.2) (listNodes (store w))) with
     | Ok (ExtractOk concepts) => Ok concepts
     | Ok (ExtractNotOk error) =>
         Throw (JsError ("Concept extraction failed: " +:+ error))
     | Throw e => Throw e
     end, w).
Proof.
  destruct w as [d t].
  unfold extraction_stage, runQuery, run, bind, gets, await, throw, ret.
  simpl. by destruct (extract_concepts E text _) as [[concepts|error]|e].
Qed.

Lemma run_updateStatus_owned (voiceNoteId : nat) (s : voice_status)
    (t m : option string) (w : world) (v : voiceNote) :
  voiceNotes (store w) !! voiceNoteId = Some v ->
  identity E = Some (voice_userId v) ->
  runMutation E (fun now => updateStatus E now
                              (status_args voiceNoteId s t m)) w
  = (Ok tt,
     {| store :=
          set_voiceNotes
            (insert voiceNoteId
               (apply_status (clock E (ticks w))
                  (status_args voiceNoteId s t m) v))
            (store w);
        ticks := S (ticks w) |}).
Proof.
  intros Hv Hid. rewrite runMutation_eq.
  by rewrite (updateStatus_ok E _ (status_args voiceNoteId s t m) _ v).
Qed.

(** The effect of the [try] block on a voice note the caller owns. *)
Lemma process_try_effect (voiceNoteId : nat) (v0 v1 : voiceNote)
    (w1 : world) (r : outcome process_result) (w2 : world) :
  voiceNotes (store w1) !! voiceNoteId = Some v1 ->
  identity E = Some (voice_userId v1) ->
  process_try E voiceNoteId v0 w1 = (r, w2) ->
  canvasNodes (store w2) = canvasNodes (store w1)
  /\ canvasEdges (store w2) = canvasEdges (store w1)
  /\ next_id (store w2) = next_id (store w1)
  /\ (forall k, k <> voiceNoteId ->
                voiceNotes (store w2) !! k = voiceNotes (store w1) !! k)
  /\ exists v2,
       voiceNotes (store w2) !! voiceNoteId = Some v2
       /\ voice_userId v2 = voice_userId v1
       /\ voice_errorMessage v2 = voice_errorMessage v1
       /\ (forall res, r = Ok res ->
                       voice_status_of v2 = Completed
                       /\ success res = true
                       /\ is_Some (voice_transcription v2)).
Proof.
  intros Hv1 Hid. unfold process_try. unfold bind at 1.
  destruct (transcription_stage E v0 w1) as [[text|err] wa] eqn:Hts;
    apply transcription_stage_pure in Hts; subst wa.
  2:{ intros [= <- <-]. split_and!; try done.
      exists v1. split_and!; try done. }
  unfold bind at 1.
  rewrite (run_updateStatus_owned _ _ _ _ _ v1 Hv1 Hid).
  set (v1a := apply_status _ _ v1).
  set (w1a := {| store := _; ticks := _ |}).
  assert (Hv1a : voiceNotes (store w1a) !! voiceNoteId = Some v1a)
    by (simpl; apply lookup_insert_eq).
  assert (Hother : forall k, k <> voiceNoteId ->
             voiceNotes (store w1a) !! k = voiceNotes (store w1) !! k).
  { intros k Hk. simpl. by rewrite lookup_insert_ne. }
  unfold bind at 1. rewrite extraction_stage_eq.
  destruct (extract_concepts E text _) as [[concepts|error]|e].
  2,3: intros [= <- <-]; split_and!; try done;
       exists v1a; split_and!; done.
  unfold bind at 1. destruct concepts as [|c rest].
  - rewrite process_concepts_nil. unfold bind at 1.
    rewrite (run_updateStatus_owned _ _ _ _ _ v1a Hv1a Hid).
    intros [= <- <-]. simpl. split_and!; try done.
    + intros k Hk. rewrite lookup_insert_ne by done.
      by rewrite lookup_insert_ne.
    + eexists. split; [apply lookup_insert_eq|].
      split_and!; try done.
      intros res [= <-]. split_and!; try done; by eexists.
  - rewrite process_concepts_rejected.
    intros [= <- <-]. split_and!; try done.
    exists v1a. split_and!; done.
Qed.

(** The effect of [process] on a voice note the caller owns. *)
Lemma process_effect (voiceNoteId : nat) (v : voiceNote) (w : world)
    (r : outcome process_result) (w' : world) :
  voiceNotes (store w) !! voiceNoteId = Some v ->
  identity E = Some (voice_userId v) ->
  process E voiceNoteId w = (r, w') ->
  canvasNodes (store w') = canvasNodes (store w)
  /\ canvasEdges (store w') = canvasEdges (store w)
  /\ next_id (store w') = next_id (store w)
  /\ (forall k, k <> voiceNoteId ->
                voiceNotes (store w') !! k = voiceNotes (store w) !! k)
  /\ exists v',
       voiceNotes (store w') !! voiceNoteId = Some v'
       /\ voice_userId v' = voice_userId v
       /\ match r with
          | Ok res =>
              voice_status_of v' = Completed
              /\ success res = true
              /\ is_Some (voice_transcription v')
              /\ voice_errorMessage v' = voice_errorMessage v
          | Throw err =>
              voice_status_of v' = Error
              /\ voice_errorMessage v' = Some (error_message err)
          end.
Proof.
  intros Hv Hid. destruct w as [d t]. simpl in Hv.
  unfold process, runQuery, run. unfold bind at 1.
  cbn [store ticks]. rewrite (get_ok E _ _ _ Hid Hv).
  cbv beta iota. unfold bind at 1.
  rewrite (run_updateStatus_owned _ _ _ _ {| store := d; ticks := t |}
             v Hv Hid).
  set (v1 := apply_status _ _ v).
  set (w1 := {| store := _; ticks := _ |}).
  assert (Hv1 : voiceNotes (store w1) !! voiceNoteId = Some v1)
    by (simpl; apply lookup_insert_eq).
  unfold try_catch.
  destruct (process_try E voiceNoteId v w1) as [[res|err] w2] eqn:Htry;
    apply (process_try_effect voiceNoteId v v1) in Htry
      as (Hnodes & Hedges & Hnext & Hvoice & v2 & Hv2 & Hu2 & Hm2 & Hok);
    try done.
  - intros [= <- <-]. split_and!; try done.
    + intros k Hk. rewrite Hvoice by done. simpl.
      by rewrite lookup_insert_ne.
    + exists v2. destruct (Hok _ eq_refl) as (Hs & Hsucc & Ht).
      split_and!; try done.
  - unfold process_catch. unfold bind at 1.
    assert (Hid2 : identity E = Some (voice_userId v2))
      by (rewrite Hu2; exact Hid).
    rewrite (run_updateStatus_owned _ _ _ _ _ v2 Hv2 Hid2).
    intros [= <- <-]. simpl. split_and!; try done.
    + intros k Hk. rewrite lookup_insert_ne by done.
      rewrite Hvoice by done. simpl. by rewrite lookup_insert_ne.
    + eexists. split; [apply lookup_insert_eq|].
      split_and!; try done.
Qed.

(** [process] on a voice note the caller does not own. *)
Lemma process_not_owned (voiceNoteId : nat) (w : world) :
  ~ owned E voiceNoteId (store w) ->
  exists message,
    process E voiceNoteId w = (Throw (JsError message), w)
    /\ (message = "Unauthorized" /\ identity E = None
        \/ message = "Voice note not found" /\ identity E <> None).
Proof.
  intros Hno. destruct w as [d t].
  unfold process, runQuery, run, bind at 1, get, bind, getAuthenticatedUser.
  destruct (identity E) as [subject|] eqn:Hid.
  - exists "Voice note not found". split; [|right; done].
    unfold ret, get_voiceNote, gets. simpl.
    destruct (voiceNotes d !! voiceNoteId) as [v|] eqn:Hv; [|done].
    destruct (bool_decide (voice_userId v = subject)) eqn:Hown; [|done].
    exfalso. apply Hno. exists v. split; [done|].
    apply bool_decide_eq_true in Hown. by rewrite Hown.
  - exists "Unauthorized". split; [done|left; done].
Qed.


End RunFacts.

Section ProcessFacts.
Import Text Canvas VoiceNotes.
Variable E : env.

Lemma try_catch_bind_ok {S A B : Type} (m : M S A) (k : A -> M S B)
    (h : thrown -> M S B) (s s1 : S) (a : A) :
  m s = (Ok a, s1) ->
  try_catch (bind m k) h s = try_catch (k a) h s1.
Proof. intros Hm. unfold try_catch, bind. by rewrite Hm. Qed.

Lemma try_catch_bind_throw {S A B : Type} (m : M S A) (k : A -> M S B)
    (h : thrown -> M S B) (s s1 : S) (e : thrown) :
  m s = (Throw e, s1) ->
  try_catch (bind m k) h s = h e s1.
Proof. intros Hm. unfold try_catch, bind. by rewrite Hm. Qed.

Lemma owned_dec (voiceNoteId : nat) (d : db) :
  owned E voiceNoteId d \/ ~ owned E voiceNoteId d.
Proof.
  unfold owned.
  destruct (voiceNotes d !! voiceNoteId) as [v|] eqn:Hv;
    [|right; by intros (v & [=] & _)].
  destruct (decide (identity E = Some (voice_userId v))) as [Hid|Hid].
  - left. by exists v.
  - right. intros (v' & [= <-] & Hid'). by apply Hid.
Qed.

(** What [process] has done once the transcript has been stored: the
    rest of the [try] block runs on a store where the voice note carries
    the transcript. *)
Lemma process_after_transcription (voiceNoteId : nat) (w : world)
    (v : voiceNote) (text : string) :
  voiceNotes (store w) !! voiceNoteId = Some v ->
  identity E = Some (voice_userId v) ->
  transcribes E v text ->
  exists v2,
    voice_userId v2 = voice_userId v
    /\ voice_transcription v2 = Some text
    /\ voice_errorMessage v2 = voice_errorMessage v
    /\ voice_status_of v2 = Processing
    /\ process E voiceNoteId w
       = try_catch
           (concepts <- extraction_stage E text ;;
            let baseX := ((100 # 1) + random_x E * (200 # 1))%Q in
            let baseY := ((100 # 1) + random_y E * (200 # 1))%Q in
            (process_concepts E voiceNoteId baseX baseY concepts
               ([], 0%Q) ;;;
             runMutation E (fun now => updateStatus E now
               (status_args voiceNoteId Completed None None)) ;;;
             ret {| success := true; conceptCount := length concepts |}))
           (process_catch E voiceNoteId)
           {| store :=
                set_voiceNotes (insert voiceNoteId v2)
                  (set_voiceNotes
                     (insert voiceNoteId
                        (apply_status (clock E (ticks w))
                           (status_args voiceNoteId Transcribing None None)
                           v))
                     (store w));
              ticks := S (S (ticks w)) |}.
Proof.
  intros Hv Hid Htr. destruct w as [d t]. simpl in Hv.
  eexists. split_and!; cycle 4.
  - unfold process, runQuery, run. unfold bind at 1.
    cbn [store ticks]. rewrite (get_ok E _ _ _ Hid Hv).
    cbv beta iota. unfold bind at 1.
    rewrite (run_updateStatus_owned _ _ _ _ _ {| store := d; ticks := t |}
               v Hv Hid).
    unfold process_try.
    rewrite (try_catch_bind_ok _ _ _ _ _ _
               (transcription_stage_ok E v text _ _ Hid Htr)).
    erewrite try_catch_bind_ok; [reflexivity|].
    erewrite run_updateStatus_owned;
      [reflexivity|simpl; apply lookup_insert_eq|exact Hid].
  - reflexivity.
  - reflexivity.
  - reflexivity.
  - reflexivity.
Qed.

(** X14: A run of the pipeline never removes or alters what was on the
    canvas before it started, and never touches another voice note: every
    node and every edge stored before the run is stored unchanged after
    it, whatever the outcome, provided the store's ids are below its
    allocator. *)
Theorem process_keeps_existing (voiceNoteId : nat) (w : world)
    (r : outcome process_result) (w' : world) :
  allocated (store w) ->
  process E voiceNoteId w = (r, w') ->
  canvasNodes (store w) ⊆ canvasNodes (store w')
  /\ canvasEdges (store w) ⊆ canvasEdges (store w')
  /\ (forall k, k <> voiceNoteId ->
                voiceNotes (store w') !! k = voiceNotes (store w) !! k)
  /\ next_id (store w) <= next_id (store w').
Proof.
  intros (Hnodes & Hedges & _) Hrun.
  destruct (owned_dec voiceNoteId (store w)) as [(v & Hv & Hid)|Hno].
  - destruct (process_effect E voiceNoteId v w r w' Hv Hid Hrun)
      as (Hn & He & Hnext & Hvoice & _).
    split_and!; [by rewrite Hn|by rewrite He|done|lia].
  - destruct (process_not_owned E voiceNoteId w Hno) as (msg & Heq & _).
    rewrite Heq in Hrun. injection Hrun as <- <-. done.
Qed.

(** X15: When the caller owns the voice note, a run of the pipeline always
    leaves it in a final state: status completed with a stored transcript
    when the run returns (and then it reports success), status error with
    the thrown error's message when the run throws.  The voice note never
    stays in the transcribing or processing state. *)
Theorem process_terminal_status (voiceNoteId : nat) (w : world)
    (r : outcome process_result) (w' : world) :
  owned E voiceNoteId (store w) ->
  process E voiceNoteId w = (r, w') ->
  exists v',
    voiceNotes (store w') !! voiceNoteId = Some v'
    /\ match r with
       | Ok res =>
           voice_status_of v' = Completed
           /\ success res = true
           /\ is_Some (voice_transcription v')
       | Throw err =>
           voice_status_of v' = Error
           /\ voice_errorMessage v' = Some (error_message err)
       end.
Proof.
  intros (v & Hv & Hid) Hrun.
  destruct (process_effect E voiceNoteId v w r w' Hv Hid Hrun)
    as (_ & _ & _ & _ & v' & Hv' & _ & Hr).
  exists v'. split; [done|].
  destruct r as [res|err]; [|done].
  destruct Hr as (? & ? & ? & _). done.
Qed.

(** X16: A caller who is not signed in, or who addresses a voice note that
    does not exist or belongs to someone else, gets an error from
    [process] before anything is written: Unauthorized when there is no
    identity, Voice note not found otherwise.  The store and the clock
    are as before. *)
Theorem process_rejects_foreign_note (voiceNoteId : nat) (w : world) :
  ~ owned E voiceNoteId (store w) ->
  process E voiceNoteId w
  = (Throw (JsError (match identity E with
                     | None => "Unauthorized"
                     | Some _ => "Voice note not found"
                     end)), w).
Proof.
  intros Hno.
  destruct (process_not_owned E voiceNoteId w Hno)
    as (msg & -> & [[-> ->]|[-> Hid]]); [done|].
  by destruct (identity E).
Qed.

(** X17: When the transcript is obtained but the extraction call fails, the
    run throws that error; the voice note keeps the transcript, gets
    status error and the error's message; no node and no edge is written
    and the allocator does not move. *)
Theorem process_extraction_failure (voiceNoteId : nat) (w : world)
    (v : voiceNote) (text : string) (err : thrown) :
  voiceNotes (store w) !! voiceNoteId = Some v ->
  identity E = Some (voice_userId v) ->
  transcribes E v text ->
  extraction_fails E text
    (map (fun n => node_content n.2) (listNodes (store w))) err ->
  exists w' v',
    process E voiceNoteId w = (Throw err, w')
    /\ voiceNotes (store w') !! voiceNoteId = Some v'
    /\ voice_status_of v' = Error
    /\ voice_errorMessage v' = Some (error_message err)
    /\ voice_transcription v' = Some text
    /\ canvasNodes (store w') = canvasNodes (store w)
    /\ canvasEdges (store w') = canvasEdges (store w)
    /\ next_id (store w') = next_id (store w).
Proof.
  intros Hv Hid Htr Hfail.
  destruct (process_after_transcription voiceNoteId w v text Hv Hid Htr)
    as (v2 & Hu2 & Ht2 & Hm2 & Hs2 & ->).
  set (w2 := {| store := _; ticks := _ |}).
  assert (Hv2 : voiceNotes (store w2) !! voiceNoteId = Some v2)
    by (simpl; apply lookup_insert_eq).
  assert (Hid2 : identity E = Some (voice_userId v2))
    by (rewrite Hu2; exact Hid).
  assert (Hstage : extraction_stage E text w2 = (Throw err, w2)).
  { rewrite extraction_stage_eq.
    change (listNodes (store w2)) with (listNodes (store w)).
    by destruct Hfail as [error ->| error ->]. }
  rewrite (try_catch_bind_throw _ _ _ _ _ _ Hstage).
  unfold process_catch. unfold bind at 1.
  rewrite (run_updateStatus_owned _ _ _ _ _ _ v2 Hv2 Hid2).
  eexists _, _. split; [reflexivity|].
  split; [simpl; apply lookup_insert_eq|].
  split_and!; try reflexivity. simpl. by rewrite Ht2.
Qed.

(** X18: Once the transcript and the concepts are obtained, the run
    goes one of two ways.  With no concept, [process] returns success
    with count 0 and marks the voice note completed.  With one concept or
    more, the insert of the first concept's note is rejected by the store,
    because the document has no [userId]: [process] throws that error and
    the voice note ends in status error with the error's message.  Either
    way the transcript is kept and no node and no edge is written. *)
Theorem process_after_extraction (voiceNoteId : nat) (w : world)
    (v : voiceNote) (text : string) (concepts : list concept) :
  voiceNotes (store w) !! voiceNoteId = Some v ->
  identity E = Some (voice_userId v) ->
  transcribes E v text ->
  extract_concepts E text
    (map (fun n => node_content n.2) (listNodes (store w)))
  = Ok (ExtractOk concepts) ->
  exists w' v',
    process E voiceNoteId w
    = (match concepts with
       | [] => Ok {| success := true; conceptCount := 0 |}
       | _ :: _ => Throw (schema_violation "canvasNodes" "userId")
       end, w')
    /\ voiceNotes (store w') !! voiceNoteId = Some v'
    /\ voice_status_of v'
       = match concepts with [] => Completed | _ :: _ => Error end
    /\ voice_errorMessage v'
       = match concepts with
         | [] => voice_errorMessage v
         | _ :: _ =>
             Some (error_message (schema_violation "canvasNodes" "userId"))
         end
    /\ voice_transcription v' = Some text
    /\ canvasNodes (store w') = canvasNodes (store w)
    /\ canvasEdges (store w') = canvasEdges (store w)
    /\ next_id (store w') = next_id (store w).
Proof.
  intros Hv Hid Htr Hextract.
  destruct (process_after_transcription voiceNoteId w v text Hv Hid Htr)
    as (v2 & Hu2 & Ht2 & Hm2 & Hs2 & ->).
  set (w2 := {| store := _; ticks := _ |}).
  assert (Hv2 : voiceNotes (store w2) !! voiceNoteId = Some v2)
    by (simpl; apply lookup_insert_eq).
  assert (Hid2 : identity E = Some (voice_userId v2))
    by (rewrite Hu2; exact Hid).
  assert (Hstage : extraction_stage E text w2 = (Ok concepts, w2)).
  { rewrite extraction_stage_eq.
    change (listNodes (store w2)) with (listNodes (store w)).
    by rewrite Hextract. }
  rewrite (try_catch_bind_ok _ _ _ _ _ _ Hstage). cbv zeta.
  destruct concepts as [|c rest].
  - rewrite (try_catch_bind_ok _ _ _ _ _ _
               (process_concepts_nil E voiceNoteId _ _ _ w2)).
    rewrite (try_catch_bind_ok _ _ _ _ _ _
               (run_updateStatus_owned E voiceNoteId Completed None None
                  w2 v2 Hv2 Hid2)).
    eexists _, _. split; [reflexivity|].
    split; [simpl; apply lookup_insert_eq|].
    split_and!; try done.
  - rewrite (try_catch_bind_throw _ _ _ _ _ _
               (process_concepts_rejected E voiceNoteId _ _ c rest _ w2)).
    unfold process_catch. unfold bind at 1.
    rewrite (run_updateStatus_owned _ _ _ _ _
               {| store := store w2; ticks := S (ticks w2) |}
               v2 Hv2 Hid2).
    eexists _, _. split; [reflexivity|].
    split; [simpl; apply lookup_insert_eq|].
    split_and!; try done.
Qed.

(** X19: A run of [process] writes nothing on the canvas: whatever the
    caller, the collaborators and the outcome, the node table, the edge
    table and the id allocator are after the run as they were before
    it. *)
Theorem process_writes_no_node (voiceNoteId : nat) (w : world)
    (r : outcome process_result) (w' : world) :
  process E voiceNoteId w = (r, w') ->
  canvasNodes (store w') = canvasNodes (store w)
  /\ canvasEdges (store w') = canvasEdges (store w)
  /\ next_id (store w') = next_id (store w).
Proof.
  intros Hrun.
  destruct (owned_dec voiceNoteId (store w)) as [(v & Hv & Hid)|Hno].
  - destruct (process_effect E voiceNoteId v w r w' Hv Hid Hrun)
      as (Hn & He & Hnext & _).
    done.
  - destruct (process_not_owned E voiceNoteId w Hno) as (msg & Heq & _).
    rewrite Heq in Hrun. by injection Hrun as <- <-.
Qed.

End ProcessFacts.

Lemma allocated_insert_voiceNote (v : voiceNote) (d : db) :
  allocated d ->
  allocated (bump (set_voiceNotes (insert (next_id d) v) d)).
Proof.
  intros (Hn & He & Hv). unfold allocated. simpl. split_and!.
  - intros k Hk. apply Hn in Hk. lia.
  - intros k Hk. apply He in Hk. lia.
  - intros k Hk. destruct (decide (k = next_id d)) as [->|Hne]; [lia|].
    rewrite lookup_insert_ne in Hk by done. apply Hv in Hk. lia.
Qed.

Lemma allocated_canvas_world : allocated (store canvas_world).
Proof.
  unfold canvas_world, after, insert_voiceNote. simpl.
  apply allocated_insert_voiceNote, allocated_scenario_B.
Defined.

Lemma transcribes_two_ideas (E : env) (v : voiceNote) :
  storage_getUrl E (voice_fileId v) = Some "https://audio" ->
  fetch_audio E "https://audio" = Ok "bytes" ->
  transcribe E "bytes" = Ok (WhisperOk "two ideas") ->
  transcribes E v "two ideas".
Proof. intros H1 H2 H3. exists "https://audio", "bytes". by split_and!. Defined.

Lemma process_keeps_existing_witness :
  canvasNodes scenario_B
    ⊆ canvasNodes (store (process batch_env 5 canvas_world).2)
  /\ canvasEdges scenario_B
       ⊆ canvasEdges (store (process batch_env 5 canvas_world).2).
Proof.
  destruct (process_keeps_existing batch_env 5 canvas_world
              (process batch_env 5 canvas_world).1
              (process batch_env 5 canvas_world).2)
    as (Hn & He & _).
  - apply allocated_canvas_world.
  - apply surjective_pairing.
  - split; [exact Hn|exact He].
Defined.

Lemma process_terminal_status_witness :
  exists w' v',
    process batch_env 0 batch_world
    = (Throw (schema_violation "canvasNodes" "userId"), w')
    /\ voiceNotes (store w') !! 0 = Some v'
    /\ voice_status_of v' = Error
    /\ voice_errorMessage v'
       = Some (error_message (schema_violation "canvasNodes" "userId")).
Proof.
  assert (Hrun : process batch_env 0 batch_world
                 = (Throw (schema_violation "canvasNodes" "userId"),
                    (process batch_env 0 batch_world).2))
    by (vm_compute; reflexivity).
  destruct (process_terminal_status batch_env 0 batch_world _ _
              (ex_intro _ uploaded_note (conj eq_refl eq_refl)) Hrun)
    as (v' & Hv' & Hs & Hm).
  by eexists _, v'.
Defined.

Lemma process_rejects_foreign_note_witness :
  process anonymous_env 0 batch_world
  = (Throw (JsError "Unauthorized"), batch_world)
  /\ process batch_env 3 batch_world
     = (Throw (JsError "Voice note not found"), batch_world).
Proof.
  split.
  - apply (process_rejects_foreign_note anonymous_env 0 batch_world).
    intros (v & _ & Hid). simpl in Hid. discriminate.
  - apply (process_rejects_foreign_note batch_env 3 batch_world).
    intros (v & Hv & _). vm_compute in Hv. discriminate.
Defined.

Lemma process_extraction_failure_witness :
  exists w' v',
    process unparsed_env 0 batch_world
    = (Throw (JsError "Concept extraction failed: bad gateway"), w')
    /\ voiceNotes (store w') !! 0 = Some v'
    /\ voice_status_of v' = Error
    /\ voice_transcription v' = Some "two ideas"
    /\ canvasNodes (store w') = ∅.
Proof.
  destruct (process_extraction_failure unparsed_env 0 batch_world
              uploaded_note "two ideas"
              (JsError "Concept extraction failed: bad gateway")
              eq_refl eq_refl
              (transcribes_two_ideas unparsed_env uploaded_note
                 eq_refl eq_refl eq_refl)
              (extraction_not_ok unparsed_env _ _ "bad gateway" eq_refl))
    as (w' & v' & Hrun & Hv & Hs & _ & Ht & Hn & _).
  exists w', v'. split_and!; try done.
Defined.

Lemma process_after_extraction_witness :
  (exists w' v',
      process batch_env 0 batch_world
      = (Throw (schema_violation "canvasNodes" "userId"), w')
      /\ voiceNotes (store w') !! 0 = Some v'
      /\ voice_status_of v' = Error
      /\ voice_transcription v' = Some "two ideas"
      /\ canvasNodes (store w') = ∅)
  /\ (exists w' v',
        process no_concepts_env 0 batch_world
        = (Ok {| success := true; conceptCount := 0 |}, w')
        /\ voiceNotes (store w') !! 0 = Some v'
        /\ voice_status_of v' = Completed).
Proof.
  split.
  - destruct (process_after_extraction batch_env 0 batch_world
                uploaded_note "two ideas" [concept_A; concept_B]
                eq_refl eq_refl
                (transcribes_two_ideas batch_env uploaded_note
                   eq_refl eq_refl eq_refl)
                eq_refl)
      as (w' & v' & Hrun & Hv & Hs & _ & Ht & Hn & _).
    exists w', v'. split_and!; try done.
  - destruct (process_after_extraction no_concepts_env 0 batch_world
                uploaded_note "two ideas" []
                eq_refl eq_refl
                (transcribes_two_ideas no_concepts_env uploaded_note
                   eq_refl eq_refl eq_refl)
                eq_refl)
      as (w' & v' & Hrun & Hv & Hs & _).
    by exists w', v'.
Defined.

Lemma process_writes_no_node_witness :
  canvasNodes (store (process batch_env 5 canvas_world).2)
  = canvasNodes scenario_B
  /\ canvasEdges (store (process batch_env 5 canvas_world).2)
     = canvasEdges scenario_B.
Proof.
  destruct (process_writes_no_node batch_env 5 canvas_world
              (process batch_env 5 canvas_world).1
              (process batch_env 5 canvas_world).2
              (surjective_pairing _))
    as (Hn & He & _).
  split; [exact Hn|exact He].
Defined.

Lemma createEdge_then_getBacklinks_witness :
  exists id d' n,
    createEdge 6 0 2 (Some "ref") scenario_B = (Ok id, d')
    /\ {| entry_id := 0; entry_node := n; entry_edgeLabel := Some "ref" |}
       ∈ getBacklinks 2 d'.
Proof.
  assert (Hn : is_Some (canvasNodes scenario_B !! 0))
    by (vm_compute; eauto).
  destruct Hn as [n Hn].
  destruct (createEdge_then_getBacklinks 6 0 2 (Some "ref") scenario_B n
              allocated_scenario_B Hn)
    as (id & d' & Hrun & Hin & _).
  by exists id, d', n.
Defined.

Lemma findNoteByTitle_sound_complete_witness :
  findNoteByTitle EmptyString scenario_A = None.
Proof.
  exact (proj1 (findNoteByTitle_sound_complete EmptyString scenario_A)
               eq_refl).
Defined.

Section VoiceNoteListing.
Import Text Canvas VoiceNotes.
Variable E : env.

Local Instance later_first_total : Total VoiceNotesQueries.later_first.
Proof. intros a b. unfold VoiceNotesQueries.later_first. lia. Qed.

Local Instance later_first_trans :
  Transitive VoiceNotesQueries.later_first.
Proof. intros a b c. unfold VoiceNotesQueries.later_first. lia. Qed.

(** X20: For a signed-in caller [list] writes nothing and returns at most
    [limit] voice notes (20 when no limit is given), all stored and owned
    by the caller, ordered from the latest id to the earliest.  The
    result is a cut of the caller's notes at the top: an owned note that
    is missing from it is older than every returned one, and then the
    result is full. *)
Theorem list_latest_owned (limit : option nat) (d : db)
    (subject : string) :
  identity E = Some subject ->
  exists l,
    VoiceNotesQueries.list E limit d = (Ok l, d)
    /\ length l <= default 20 limit
    /\ (forall p, p ∈ l ->
                  voiceNotes d !! p.1 = Some p.2
                  /\ voice_userId p.2 = subject)
    /\ StronglySorted VoiceNotesQueries.later_first l
    /\ (forall id v,
          voiceNotes d !! id = Some v ->
          voice_userId v = subject ->
          (id, v) ∈ l
          \/ (length l = default 20 limit
              /\ forall p, p ∈ l -> id <= p.1)).
Proof.
  intros Hid.
  unfold VoiceNotesQueries.list, bind, getAuthenticatedUser.
  rewrite Hid. unfold ret, gets.
  set (mine := filter _ (map_to_list (voiceNotes d))).
  set (s := merge_sort VoiceNotesQueries.later_first mine).
  set (n := default 20 limit).
  assert (Hmine : forall p, p ∈ s <->
            voiceNotes d !! p.1 = Some p.2 /\ voice_userId p.2 = subject).
  { intros [id v]. unfold s. rewrite merge_sort_Permutation.
    unfold mine. rewrite list_elem_of_filter, elem_of_map_to_list.
    simpl. tauto. }
  assert (Hsorted : StronglySorted VoiceNotesQueries.later_first
                      (take n s ++ drop n s)).
  { rewrite take_drop. apply StronglySorted_merge_sort; apply _. }
  exists (take n s). split; [reflexivity|]. split_and!.
  - rewrite length_take. lia.
  - intros p Hp. apply Hmine.
    eapply elem_of_sublist; [exact Hp|]. apply sublist_take.
  - by eapply StronglySorted_app_1_l.
  - intros id v Hl Hu.
    assert (Hin : (id, v) ∈ take n s ++ drop n s)
      by (rewrite take_drop; by apply Hmine).
    apply elem_of_app in Hin as [Hin|Hin]; [by left|right]. split.
    + rewrite length_take.
      assert (0 < length (drop n s))
        by (destruct (drop n s); [by apply elem_of_nil in Hin|simpl; lia]).
      rewrite length_drop in H. lia.
    + intros p Hp.
      apply (StronglySorted_app_1_elem_of _ _ _ p (id, v) Hsorted Hp Hin).
Qed.

End VoiceNoteListing.

Lemma list_latest_owned_witness :
  exists l,
    VoiceNotesQueries.list batch_env (Some 1) (store batch_world)
    = (Ok l, store batch_world)
    /\ length l <= 1.
Proof.
  destruct (list_latest_owned batch_env (Some 1) (store batch_world) "user"
              eq_refl) as (l & Hrun & Hlen & _).
  by exists l.
Defined.

Section ConceptTitles.
Import Text Parser Canvas VoiceNotes.

(** X21: The note written for a concept answers to the concept's title.
    When the title is non-empty text without markup, line feed or
    surrounding whitespace, the server's title of the note is the
    concept's title, so [findNoteByTitle] finds a note for it in any
    store that holds the concept's note: a reference to the title from
    another note resolves. *)
Theorem concept_note_found (voiceNoteId id : nat) (c : concept)
    (node : canvasNode) (d : db) :
  canvasNodes d !! id = Some node ->
  concept_node voiceNoteId c node ->
  concept_title c <> EmptyString ->
  plain (concept_title c) = true ->
  trim (concept_title c) = concept_title c ->
  extractNoteTitle (node_content node) = concept_title c
  /\ is_Some (findNoteByTitle (concept_title c) d).
Proof.
  intros Hnode (Htype & Hcontent & _) Hne Hplain Htrim.
  assert (Htitle : noteTitle (node_content node) = concept_title c).
  { rewrite Hcontent. unfold concept_note_content, line_feed.
    change ("# " +:+ concept_title c +:+ String "010" EmptyString
                 +:+ ?rest)
      with ("# " +:+ concept_title c +:+ String "010" rest).
    rewrite noteTitle_heading by done. exact Htrim. }
  split.
  - unfold extractNoteTitle. fold (noteTitle (node_content node)).
    rewrite Htitle. destruct (concept_title c); [done|reflexivity].
  - unfold findNoteByTitle.
    destruct (is_empty (concept_title c)) eqn:Hemp.
    { apply is_empty_true in Hemp. done. }
    eapply (find_first_hit _ _ (id, node)).
    + apply elem_of_notes. simpl. by split.
    + simpl. apply String.eqb_eq. by rewrite Htitle.
Qed.

End ConceptTitles.

Lemma concept_note_found_witness :
  is_Some (findNoteByTitle "Pears" (store batch_graph)).
Proof.
  assert (Hn : exists node,
             canvasNodes (store batch_graph) !! 2 = Some node
             /\ concept_node 0 concept_B node).
  { vm_compute. eexists. split; [reflexivity|]. by split_and!. }
  destruct Hn as (node & Hnode & Hconcept).
  refine (proj2 (concept_note_found 0 2 concept_B node _ Hnode Hconcept
                   _ _ _)).
  - discriminate.
  - reflexivity.
  - reflexivity.
Defined.
